(** * MedQueryAI: the chat front end and the conversation core

    A shallow embedding of the React front end of the drug-information
    chatbot (ChatMessage.jsx, ChatPanel.jsx, UploadPanel.jsx, App.jsx and
    services/api.js) together with the two back-end components the
    specification describes but whose Python sources are not part of the
    tree (conversation memory and the citation post-processor).

    JavaScript strings are sequences of UTF-16 code units; they are
    modelled as [list N].  React state is modelled by records, event
    handlers by functions from state to state, and the outcome of an
    awaited promise by an explicit argument. *)

From Stdlib Require Import Ascii String NArith QArith DecimalPos.
From stdpp Require Import base list strings gmap sorting.

Local Open Scope N_scope.
Local Open Scope nat_scope.

(** ** JavaScript strings *)

Module JsString.

(** A string value: its UTF-16 code units. *)
Definition Str : Type := list N.

(** The code unit of an ASCII character. *)
Definition cu (a : ascii) : N := N_of_ascii a.
Arguments cu a%_char.

(** An ASCII literal as a JavaScript string. *)
Fixpoint lit (s : string) : Str :=
  match s with
  | EmptyString => []
  | String a s' => cu a :: lit s'
  end.

(** [text.slice(from, to)] for [0 <= from], [0 <= to]. *)
Definition slice (text : Str) (from to : nat) : Str :=
  take (to - from) (drop from text).

(** [text.slice(from)]. *)
Definition slice_from (text : Str) (from : nat) : Str := drop from text.

(** WhiteSpace and LineTerminator code points of ECMAScript: the set
    matched by [\s] and stripped by [String.prototype.trim]. *)
Definition isWhiteSpace (c : N) : bool :=
  ((9 <=? c) && (c <=? 13))%N
  || (c =? 32)%N || (c =? 160)%N || (c =? 5760)%N
  || ((8192 <=? c) && (c <=? 8202))%N
  || (c =? 8232)%N || (c =? 8233)%N || (c =? 8239)%N
  || (c =? 8287)%N || (c =? 12288)%N || (c =? 65279)%N.

Definition isDigit (c : N) : bool := ((48 <=? c) && (c <=? 57))%N.

Fixpoint trimStart (s : Str) : Str :=
  match s with
  | c :: s' => if isWhiteSpace c then trimStart s' else s
  | [] => []
  end.

Definition trimEnd (s : Str) : Str := reverse (trimStart (reverse s)).

(** [s.trim()]. *)
Definition trim (s : Str) : Str := trimEnd (trimStart s).

(** Truthiness of a string value: only the empty string is falsy. *)
Definition truthy (s : Str) : bool :=
  match s with [] => false | _ => true end.

(** A decimal digit. *)
Definition digit (c : N) : Prop := isDigit c = true.

(** A string that is empty or made of white space only. *)
Definition blank (s : Str) : Prop := Forall (fun c => isWhiteSpace c = true) s.

End JsString.

Import JsString.

(** ** Regular expressions (backtracking semantics of ECMAScript) *)

Module RegExp.

(** The fragment of the pattern language used by the front end. *)
Inductive regex : Type :=
| Chr (c : N)            (* a pattern character *)
| Space                  (* \s *)
| Digit                  (* \d *)
| Seq (r1 r2 : regex)    (* r1 r2 *)
| Star (r : regex)       (* r* , greedy *)
| Opt (r : regex)        (* r? , greedy *)
| Group (r : regex).     (* ( r ), capture group 1 *)

(** [r+] is one mandatory iteration followed by [r*]. *)
Definition Plus (r : regex) : regex := Seq r (Star r).

(** Canonicalize of the [i] flag (non-unicode mode): the code unit of
    the upper-case form.  A code unit above 127 is never mapped to one
    below 128 (step 3.g of Canonicalize), and every pattern character
    of this program is ASCII, so the mapping is needed on ASCII only. *)
Definition canonicalize (c : N) : N :=
  if ((97 <=? c) && (c <=? 122))%N then (c - 32)%N else c.

(** RepeatMatcher for a greedy [*]: [m] matches one iteration, [k]
    is the continuation of the whole repetition.  An iteration that
    consumes nothing is rejected.  The bound [n] on the number of
    iterations is the length of the input, which no sequence of
    consuming iterations exceeds. *)
Fixpoint repeatMatcher {A : Type}
    (m : Str -> option Str -> (Str -> option Str -> option A) -> option A)
    (k : Str -> option Str -> option A)
    (n : nat) (s : Str) (cap : option Str) : option A :=
  match n with
  | 0 => k s cap
  | S n' =>
      match m s cap
              (fun s1 c1 =>
                 if length s1 <? length s then repeatMatcher m k n' s1 c1
                 else None)
      with
      | Some x => Some x
      | None => k s cap
      end
  end.

(** The matcher, in continuation-passing style: [rmatch r s cap k]
    matches [r] at the head of [s] and hands the remaining input and the
    capture to [k]; a failing continuation makes the matcher backtrack.
    An iteration of [*] or [?] that consumes nothing is rejected, as in
    RepeatMatcher. *)
Fixpoint rmatch {A : Type} (r : regex) (s : Str) (cap : option Str)
    (k : Str -> option Str -> option A) {struct r} : option A :=
  match r with
  | Chr c =>
      match s with
      | ch :: s' =>
          if (canonicalize ch =? canonicalize c)%N then k s' cap else None
      | [] => None
      end
  | Space =>
      match s with
      | ch :: s' => if isWhiteSpace ch then k s' cap else None
      | [] => None
      end
  | Digit =>
      match s with
      | ch :: s' => if isDigit ch then k s' cap else None
      | [] => None
      end
  | Seq r1 r2 => rmatch r1 s cap (fun s1 c1 => rmatch r2 s1 c1 k)
  | Opt r1 =>
      match rmatch r1 s cap
              (fun s1 c1 => if length s1 <? length s then k s1 c1 else None)
      with
      | Some x => Some x
      | None => k s cap
      end
  | Star r1 => repeatMatcher (rmatch r1) k (length s) s cap
  | Group r1 =>
      rmatch r1 s cap
        (fun s1 _ => k s1 (Some (take (length s - length s1) s)))
  end.

(** The result array of a successful [exec]. *)
Record MatchResult : Type := mkMatch {
  index : nat;            (* match.index *)
  m0 : Str;               (* match[0] *)
  m1 : option Str         (* match[1] *)
}.

(** Try the pattern at the head of [s], which starts at position [i] of
    the subject; on failure advance by one code unit. *)
Fixpoint exec_from (r : regex) (s : Str) (i : nat) : option MatchResult :=
  match rmatch r s None (fun rest cap => Some (rest, cap)) with
  | Some (rest, cap) => Some (mkMatch i (take (length s - length rest) s) cap)
  | None =>
      match s with
      | [] => None
      | _ :: s' => exec_from r s' (S i)
      end
  end.

(** [re.exec(text)] for a regular expression with the [g] flag whose
    [lastIndex] property is [lastIndex]: the result and the new value of
    [lastIndex]. *)
Definition exec (r : regex) (text : Str) (lastIndex : nat)
    : option MatchResult * nat :=
  if length text <? lastIndex then (None, 0)
  else
    match exec_from r (drop lastIndex text) lastIndex with
    | Some m => (Some m, index m + length (m0 m))
    | None => (None, 0)
    end.

(** A pattern every match of which consumes at least one code unit. *)
Definition consuming (r : regex) : Prop :=
  forall (A : Type) (s : Str) (cap : option Str)
         (k : Str -> option Str -> option A) (x : A),
    rmatch r s cap k = Some x ->
    exists s' cap',
      s' `suffix_of` s /\ length s' < length s /\ k s' cap' = Some x.

End RegExp.

Import RegExp.

(** ** ChatMessage.jsx *)

Module ChatMessage.

Inductive PartType : Type := type_text | type_citation.

(** An element of the [parts] array. *)
Record Part : Type := mkPart {
  type : PartType;
  content : Str;
  pages : option Str
}.

(** The pattern of [citationRegex], flags [gi], written with spaces between
    its tokens:
    [\( P a g e \s+ ( \d+ (?: ,? \s* (?: a n d \s+ )? \d+ )* ) \)].

    [morePages] is the repeated non-capturing group,
    [pageNumbers] the contents of the capture group. *)
Definition morePages : regex :=
  Seq (Opt (Chr (cu ",")))
 (Seq (Star Space)
 (Seq (Opt (Seq (Chr (cu "a")) (Seq (Chr (cu "n")) (Seq (Chr (cu "d")) (Plus Space)))))
      (Plus Digit))).

Definition pageNumbers : regex := Seq (Plus Digit) (Star morePages).

Definition citationRegex : regex :=
  Seq (Chr (cu "("))
 (Seq (Chr (cu "P")) (Seq (Chr (cu "a")) (Seq (Chr (cu "g")) (Seq (Chr (cu "e"))
 (Seq (Plus Space)
 (Seq (Group pageNumbers)
      (Chr (cu ")")))))))).

(** The [while] loop of [extractCitations].  [reLast] is
    [citationRegex.lastIndex], [lastIndex] the local variable.  The loop
    has no bound in the source; [fuel] bounds the number of iterations
    and [None] means the bound was reached. *)
Fixpoint extractLoop (fuel : nat) (text : Str) (reLast lastIndex : nat)
    (parts : list Part) : option (nat * list Part) :=
  match fuel with
  | 0 => None
  | S fuel' =>
      match exec citationRegex text reLast with
      | (None, _) => Some (lastIndex, parts)
      | (Some m, reLast') =>
          let parts1 :=
            if lastIndex <? index m
            then parts ++ [mkPart type_text (slice text lastIndex (index m)) None]
            else parts in
          let parts2 := parts1 ++ [mkPart type_citation (m0 m) (m1 m)] in
          extractLoop fuel' text reLast' (index m + length (m0 m)) parts2
      end
  end.

Definition extractCitations (text : Str) : option (list Part) :=
  match extractLoop (S (length text)) text 0 0 [] with
  | None => None
  | Some (lastIndex, parts) =>
      let parts' :=
        if lastIndex <? length text
        then parts ++ [mkPart type_text (slice_from text lastIndex) None]
        else parts in
      Some (if 0 <? length parts' then parts' else [mkPart type_text text None])
  end.

(** The content fields of the parts, concatenated in order. *)
Definition contents (parts : list Part) : Str := concat (map content parts).

(** A code unit other than the opening parenthesis. *)
Definition notParen (c : N) : Prop := c <> cu "(".

Definition noParen (s : Str) : bool :=
  forallb (fun c => negb (c =? cu "(")%N) s.

End ChatMessage.

Import ChatMessage.


(** ** services/api.js *)

Module Api.

(** The body of [POST /chat] built by [sendMessage]. *)
Record ChatRequest : Type := mkChatRequest {
  question : Str;
  session_id : Str;
  document_id : option Str      (* [None] is JavaScript's null *)
}.

(** [response.data] of a successful [POST /chat]. *)
Record ChatResponse : Type := mkChatResponse {
  answer : Str;
  resp_timestamp : Str;
  resp_sources : list Str
}.

(** How the promise returned by [sendMessage] settles. *)
Inductive ChatOutcome : Type :=
| ChatResolved (response : ChatResponse)
| ChatRejected.

(** [sendMessage(question, sessionId, documentId)]: the request it posts. *)
Definition sendMessage (question sessionId : Str) (documentId : option Str)
    : ChatRequest :=
  mkChatRequest question sessionId documentId.

(** [response.data] of a successful [POST /upload]. *)
Record UploadResult : Type := mkUploadResult {
  up_document_id : Str;
  filename : Str;
  page_count : nat;
  chunk_count : nat
}.

(** How the promise returned by [uploadPDF] settles; a rejection carries
    [error.response?.data?.detail] when the server sent one. *)
Inductive UploadOutcome : Type :=
| UploadResolved (result : UploadResult)
| UploadRejected (detail : option Str).

End Api.

Import Api.

(** Truthiness of a value that is null or a string. *)
Definition truthy_opt (v : option Str) : bool :=
  match v with
  | Some s => truthy s
  | None => false
  end.

(** ** ChatPanel.jsx *)

Module ChatPanel.

Inductive Role : Type := user | assistant.

Record Message : Type := mkMessage {
  role : Role;
  msg_content : Str;
  timestamp : Str;
  sources : option (list Str)
}.

Record Props : Type := mkProps {
  documentId : option Str;
  sessionId : Str
}.

(** The three [useState] cells of the component. *)
Record State : Type := mkState {
  messages : list Message;
  inputValue : Str;
  isLoading : bool
}.

Definition initialState : State := mkState [] [] false.

Definition errorText : Str :=
  lit "Sorry, I encountered an error. Please make sure LM Studio is running and try again.".

Definition userMessage (input now : Str) : Message :=
  mkMessage user input now None.

Definition assistantMessage (response : ChatResponse) : Message :=
  mkMessage assistant (answer response) (resp_timestamp response)
    (Some (resp_sources response)).

Definition errorMessage (now : Str) : Message :=
  mkMessage assistant errorText now None.

(** The guard on the first line of [handleSend]. *)
Definition sendGuard (st : State) : bool :=
  negb (truthy (trim (inputValue st))) || isLoading st.

(** [handleSend] up to its [await]: the new state and the request handed
    to [sendMessage], if any.  [now] is [new Date().toISOString()]. *)
Definition handleSend_begin (p : Props) (now : Str) (st : State)
    : State * option ChatRequest :=
  if sendGuard st then (st, None)
  else
    (mkState (messages st ++ [userMessage (inputValue st) now]) [] true,
     Some (sendMessage (inputValue st) (sessionId p) (documentId p))).

(** The entry appended when the awaited call settles. *)
Definition settled (outcome : ChatOutcome) (now : Str) : Message :=
  match outcome with
  | ChatResolved response => assistantMessage response
  | ChatRejected => errorMessage now
  end.

(** [handleSend] after the [await]: the [try] continuation or the
    [catch] block, then [finally]. *)
Definition handleSend_settle (outcome : ChatOutcome) (now : Str) (st : State)
    : State :=
  mkState (messages st ++ [settled outcome now]) (inputValue st) false.

(** A call of [handleSend] run to completion, nothing else happening
    while it awaits: the final state and the calls of [sendMessage]. *)
Definition handleSend (p : Props) (now1 now2 : Str) (outcome : ChatOutcome)
    (st : State) : State * list ChatRequest :=
  match handleSend_begin p now1 st with
  | (st1, Some req) => (handleSend_settle outcome now2 st1, [req])
  | (st1, None) => (st1, [])
  end.

Definition clearChat (st : State) : State :=
  mkState [] (inputValue st) (isLoading st).

Definition setInputValue (v : Str) (st : State) : State :=
  mkState (messages st) v (isLoading st).

Definition exampleQuestions : list Str :=
  [ lit "What is the recommended dosage for ulcerative colitis?";
    lit "What are the boxed warnings?";
    lit "Is RINVOQ contraindicated in hepatic impairment?";
    lit "What are the common adverse reactions?";
    lit "What should be evaluated before initiating treatment?" ].

(** What the rendered panel offers to the user. *)
Record View : Type := mkView {
  clearVisible : bool;         (* messages.length > 0 *)
  examplesVisible : bool;      (* messages.length === 0 *)
  textareaDisabled : bool;
  sendDisabled : bool
}.

Definition render (p : Props) (st : State) : View :=
  mkView
    (0 <? length (messages st))
    (length (messages st) =? 0)
    (negb (truthy_opt (documentId p)) || isLoading st)
    (negb (truthy (trim (inputValue st)))
     || negb (truthy_opt (documentId p)) || isLoading st).

(** The mounted panel: its state, the request it is awaiting and the
    log of all calls of [sendMessage] so far. *)
Record Panel : Type := mkPanel {
  state : State;
  inflight : option ChatRequest;
  calls : list ChatRequest
}.

Definition mount : Panel := mkPanel initialState None [].

Inductive Event : Type :=
| ClickSend (now : Str)
| PressKey (enter shift : bool) (now : Str)   (* key press in the textarea *)
| ChangeInput (v : Str)                       (* typing in the textarea *)
| ClickExample (i : nat)
| ClickClear
| Settle (outcome : ChatOutcome) (now : Str). (* the awaited promise settles *)

Definition runSend (p : Props) (now : Str) (w : Panel) : Panel :=
  match handleSend_begin p now (state w) with
  | (st1, Some req) => mkPanel st1 (Some req) (calls w ++ [req])
  | (st1, None) => mkPanel st1 (inflight w) (calls w)
  end.

(** [handleKeyPress]. *)
Definition handleKeyPress (p : Props) (enter shift : bool) (now : Str)
    (w : Panel) : Panel :=
  if enter && negb shift then runSend p now w else w.

(** One event.  A disabled control and a control that is not rendered
    deliver no event to their handler. *)
Definition step (p : Props) (e : Event) (w : Panel) : Panel :=
  let v := render p (state w) in
  match e with
  | ClickSend now => if sendDisabled v then w else runSend p now w
  | PressKey enter shift now =>
      if textareaDisabled v then w else handleKeyPress p enter shift now w
  | ChangeInput x =>
      if textareaDisabled v then w
      else mkPanel (setInputValue x (state w)) (inflight w) (calls w)
  | ClickExample i =>
      if examplesVisible v then
        match exampleQuestions !! i with
        | Some q => mkPanel (setInputValue q (state w)) (inflight w) (calls w)
        | None => w
        end
      else w
  | ClickClear =>
      if clearVisible v
      then mkPanel (clearChat (state w)) (inflight w) (calls w)
      else w
  | Settle outcome now =>
      match inflight w with
      | Some _ => mkPanel (handleSend_settle outcome now (state w)) None (calls w)
      | None => w
      end
  end.

(** A run of the panel: a sequence of events, each delivered under the
    properties [App] passes at that time. *)
Definition run (es : list (Props * Event)) (w : Panel) : Panel :=
  foldl (fun w pe => step (fst pe) (snd pe) w) w es.

(** The user types a question and sends it; the call completes. *)
Record Send : Type := mkSend {
  send_question : Str;
  send_now1 : Str;
  send_now2 : Str;
  send_outcome : ChatOutcome
}.

Definition doSend (p : Props) (st : State) (s : Send) : State :=
  fst (handleSend p (send_now1 s) (send_now2 s) (send_outcome s)
         (setInputValue (send_question s) st)).

Definition doSends (p : Props) (ss : list Send) (st : State) : State :=
  foldl (doSend p) st ss.

(** The two entries a completed send leaves behind. *)
Definition sendEntries (s : Send) : list Message :=
  [userMessage (send_question s) (send_now1 s);
   settled (send_outcome s) (send_now2 s)].

Definition asked (s : Send) : Prop := trim (send_question s) <> [].

(** Roles strictly alternate, starting with [first]. *)
Fixpoint alternates (first : Role) (ms : list Message) : bool :=
  match ms with
  | [] => true
  | m :: ms' =>
      match first, role m with
      | user, user => alternates assistant ms'
      | assistant, assistant => alternates user ms'
      | _, _ => false
      end
  end.

(** An event other than the clearing of the chat and the settling of the
    awaited call. *)
Definition userInput (e : Event) : Prop :=
  match e with
  | ClickClear | Settle _ _ => False
  | _ => True
  end.

(** A request leaves the panel only when a document id is set. *)
Definition carriesDocument (r : ChatRequest) : Prop := document_id r <> None.

End ChatPanel.

(** ** UploadPanel.jsx and App.jsx *)

Module App.

Record File : Type := mkFile { name : Str }.

(** State of [App]. *)
Record State : Type := mkState {
  sessionId : Str;
  documentId : option Str;
  documentInfo : option UploadResult;
  isProcessing : bool;
  error : option Str
}.

Definition initialState (sid : Str) : State :=
  mkState sid None None false None.

Definition handleUploadSuccess (result : UploadResult) (st : State) : State :=
  mkState (sessionId st) (Some (up_document_id result)) (Some result)
    (isProcessing st) None.

Definition handleUploadError (errorMessage : Str) (st : State) : State :=
  mkState (sessionId st) None None (isProcessing st) (Some errorMessage).

Definition setIsProcessing (b : bool) (st : State) : State :=
  mkState (sessionId st) (documentId st) (documentInfo st) b (error st).

(** State of [UploadPanel]. *)
Record UploadState : Type := mkUploadState {
  uploadProgress : nat;
  uploadedFile : option File
}.

Definition initialUploadState : UploadState := mkUploadState 0 None.

(** [error.response?.data?.detail || 'Failed to upload PDF']. *)
Definition uploadErrorMessage (detail : option Str) : Str :=
  if truthy_opt detail then default [] detail
  else lit "Failed to upload PDF".

(** [onDrop] up to (not including) the timer callback of its [finally]
    block.  [progress] lists the values reported by the progress
    callback while the upload runs. *)
Definition onDrop (acceptedFiles : list File) (progress : list nat)
    (outcome : UploadOutcome) (w : State * UploadState)
    : State * UploadState :=
  match acceptedFiles with
  | [] => w
  | file :: _ =>
      let app1 := setIsProcessing true (fst w) in
      let up1 := mkUploadState (default 0 (last progress)) (Some file) in
      match outcome with
      | UploadResolved result =>
          (handleUploadSuccess result app1, mkUploadState 100 (Some file))
      | UploadRejected detail =>
          (handleUploadError (uploadErrorMessage detail) app1,
           mkUploadState (uploadProgress up1) None)
      end
  end.

(** The callback of [setTimeout] in the [finally] block. *)
Definition onDropTimer (w : State * UploadState) : State * UploadState :=
  (setIsProcessing false (fst w), mkUploadState 0 (uploadedFile (snd w))).

(** What [App] renders in the chat area. *)
Inductive ChatArea : Type :=
| ChatPanelFor (props : ChatPanel.Props)
| NoDocumentLoaded.

Definition renderChatArea (st : State) : ChatArea :=
  if truthy_opt (documentId st)
  then ChatPanelFor (ChatPanel.mkProps (documentId st) (sessionId st))
  else NoDocumentLoaded.

(** Events of the upload flow. *)
Inductive Event : Type :=
| Drop (acceptedFiles : list File) (progress : list nat)
       (outcome : UploadOutcome)
| Timer.

Definition step (e : Event) (w : State * UploadState) : State * UploadState :=
  match e with
  | Drop fs progress outcome => onDrop fs progress outcome w
  | Timer => onDropTimer w
  end.

Definition run (es : list Event) (w : State * UploadState)
    : State * UploadState :=
  foldl (fun w e => step e w) w es.

(** The drop is an upload that succeeded. *)
Definition isSuccess (e : Event) : bool :=
  match e with
  | Drop (_ :: _) _ (UploadResolved _) => true
  | _ => false
  end.

End App.

(** ** Conversation memory (back end) *)

Module ConversationMemory.

Inductive Role : Type := user | assistant.

(** An entry of a transcript: (role, text, timestamp). *)
Record Entry : Type := mkEntry {
  role : Role;
  text : Str;
  timestamp : Str
}.

(** Modelled from the spec: the session-keyed store of the memory
    component ([memory.py] is not part of the tree).  A store has a
    capacity of N exchanges and keeps one ordered transcript per
    session id. *)
Record Memory : Type := mkMemory {
  capacity : nat;
  sessions : gmap Str (list Entry)
}.

Definition empty (capacity : nat) : Memory := mkMemory capacity ∅.

(** Modelled from the spec: [get(session_id)], the entries of the
    session, oldest first ([memory.py] is not part of the tree). *)
Definition get (m : Memory) (sid : Str) : list Entry :=
  default [] (sessions m !! sid).

(** Modelled from the spec: eviction of [memory.py], strict FIFO at
    exchange granularity: once the transcript exceeds the capacity of N
    exchanges (2N entries), its oldest (user, assistant) pair is
    dropped. *)
Definition evict (capacity : nat) (l : list Entry) : list Entry :=
  if 2 * capacity <? length l then drop 2 l else l.

(** Modelled from the spec: [append(session_id, role, text)] of
    [memory.py]; [now] is the timestamp given to the new entry. *)
Definition append (m : Memory) (sid : Str) (r : Role) (t now : Str) : Memory :=
  mkMemory (capacity m)
    (<[sid := evict (capacity m) (get m sid ++ [mkEntry r t now])]> (sessions m)).

(** Modelled from the spec: [clear(session_id)] of [memory.py]. *)
Definition clear (m : Memory) (sid : Str) : Memory :=
  mkMemory (capacity m) (delete sid (sessions m)).

(** One exchange: the user's question and the assistant's answer. *)
Record Exchange : Type := mkExchange {
  ex_question : Str;
  ex_asked : Str;
  ex_answer : Str;
  ex_answered : Str
}.

Definition entries (x : Exchange) : list Entry :=
  [mkEntry user (ex_question x) (ex_asked x);
   mkEntry assistant (ex_answer x) (ex_answered x)].

(** Appending an exchange is two calls of [append]. *)
Definition appendExchange (sid : Str) (m : Memory) (x : Exchange) : Memory :=
  append (append m sid user (ex_question x) (ex_asked x))
    sid assistant (ex_answer x) (ex_answered x).

Definition appendExchanges (sid : Str) (xs : list Exchange) (m : Memory)
    : Memory :=
  foldl (appendExchange sid) m xs.

(** The transcript made of the given exchanges, oldest first. *)
Definition transcript (xs : list Exchange) : list Entry :=
  concat (map entries xs).

(** The last [n] elements of a list. *)
Definition lastn {A : Type} (n : nat) (l : list A) : list A :=
  drop (length l - n) l.

End ConversationMemory.

(** ** Prompt/citation assembler (back end) *)

Module CitationAssembler.

(** The fields of a chunk the assembler reads. *)
Record Chunk : Type := mkChunk {
  chunk_id : Str;
  sequence_index : nat;
  source_page_numbers : list positive
}.

(** An element of a RetrievedContext. *)
Record Retrieved : Type := mkRetrieved {
  chunk : Chunk;
  raw_similarity : Q;
  boosted_similarity : Q
}.

Definition RetrievedContext : Type := list Retrieved.

Definition contextPages (ctx : RetrievedContext) : list positive :=
  concat (map (fun r => source_page_numbers (chunk r)) ctx).

(** The distinct pages, sorted ascending. *)
Definition distinctSortedPages (ctx : RetrievedContext) : list positive :=
  merge_sort Pos.le (remove_dups (contextPages ctx)).

Fixpoint digits (u : Decimal.uint) : Str :=
  match u with
  | Decimal.Nil => []
  | Decimal.D0 u' => cu "0" :: digits u'
  | Decimal.D1 u' => cu "1" :: digits u'
  | Decimal.D2 u' => cu "2" :: digits u'
  | Decimal.D3 u' => cu "3" :: digits u'
  | Decimal.D4 u' => cu "4" :: digits u'
  | Decimal.D5 u' => cu "5" :: digits u'
  | Decimal.D6 u' => cu "6" :: digits u'
  | Decimal.D7 u' => cu "7" :: digits u'
  | Decimal.D8 u' => cu "8" :: digits u'
  | Decimal.D9 u' => cu "9" :: digits u'
  end.

(** A page number in decimal. *)
Definition showPage (p : positive) : Str := digits (Pos.to_uint p).

(** "N, M, and K": the pages of a list of three or more, from the
    second one on. *)
Fixpoint oxfordTail (ps : list positive) : Str :=
  match ps with
  | [] => []
  | [p] => lit ", and " ++ showPage p
  | p :: ps' => lit ", " ++ showPage p ++ oxfordTail ps'
  end.

(** Modelled from the spec: the synthesized citation of
    [validate_and_fix] (the Python post-processor is not part of the
    tree): "(Page N)" for one page, "(Pages N and M)" for two,
    "(Pages N, M, and K)" for more. *)
Definition formatCitation (ps : list positive) : Str :=
  match ps with
  | [] => []
  | [p] => lit "(Page " ++ showPage p ++ lit ")"
  | [p; q] => lit "(Pages " ++ showPage p ++ lit " and " ++ showPage q ++ lit ")"
  | p :: ps' => lit "(Pages " ++ showPage p ++ oxfordTail ps' ++ lit ")"
  end.

Section Validate.

(** The recognizer of page citations in a generated text: the page
    numbers its recognizable citations refer to.  The specification
    leaves the recognized patterns open. *)
Variable citedPages : Str -> list positive.

(** Modelled from the spec: [validate_and_fix(generated_text,
    RetrievedContext)] (the Python post-processor is not part of the
    tree).  Nothing is appended for an empty context; a text that
    already cites a page of the context is returned unchanged;
    otherwise the synthesized citation is appended. *)
Definition validate_and_fix (generated_text : Str) (ctx : RetrievedContext)
    : Str :=
  match ctx with
  | [] => generated_text
  | _ :: _ =>
      if existsb (fun p => bool_decide (p ∈ contextPages ctx))
           (citedPages generated_text)
      then generated_text
      else generated_text ++ formatCitation (distinctSortedPages ctx)
  end.

End Validate.

(** A recognizer built on the front end's pattern: the positive decimal
    numbers inside the citations found by [extractCitations]. *)
Definition flush (acc : option N) : list positive :=
  match acc with
  | Some (Npos p) => [p]
  | _ => []
  end.

Fixpoint numbersIn (acc : option N) (s : Str) : list positive :=
  match s with
  | [] => flush acc
  | c :: s' =>
      if isDigit c
      then numbersIn (Some (default 0 acc * 10 + (c - 48))%N) s'
      else flush acc ++ numbersIn None s'
  end.

Definition frontEndCitedPages (generated_text : Str) : list positive :=
  match ChatMessage.extractCitations generated_text with
  | Some parts =>
      concat (map (fun p => match ChatMessage.pages p with
                            | Some s => numbersIn None s
                            | None => []
                            end) parts)
  | None => []
  end.

End CitationAssembler.

Import CitationAssembler.

(** ** ChatMessage.jsx: highlightContent *)

Module Highlight.

(** A literal of one or more pattern characters: [c] followed by [s]. *)
Fixpoint word (c : N) (s : Str) : regex :=
  match s with
  | [] => Chr c
  | c' :: s' => Seq (Chr c) (word c' s')
  end.

(** Digits, optional white space and a unit: the shape of "\d+\s*mg". *)
Definition amount (unit : regex) : regex :=
  Seq (Plus Digit) (Seq (Star Space) unit).

(** The alternatives of
    "(\d+\s*mg|\d+\s*mcg|once daily|twice daily|dosage|dose)", in order. *)
Definition dosageTerms : list regex :=
  [ amount (word (cu "m") (lit "g"));
    amount (word (cu "m") (lit "cg"));
    word (cu "o") (lit "nce daily");
    word (cu "t") (lit "wice daily");
    word (cu "d") (lit "osage");
    word (cu "d") (lit "ose") ].

(** "(warning|caution|risk|serious|death|fatal)". *)
Definition warningTerms : list regex :=
  [ word (cu "w") (lit "arning");
    word (cu "c") (lit "aution");
    word (cu "r") (lit "isk");
    word (cu "s") (lit "erious");
    word (cu "d") (lit "eath");
    word (cu "f") (lit "atal") ].

(** "(contraindicated|contraindication|should not|do not use)". *)
Definition contraindicationTerms : list regex :=
  [ word (cu "c") (lit "ontraindicated");
    word (cu "c") (lit "ontraindication");
    word (cu "s") (lit "hould not");
    word (cu "d") (lit "o not use") ].

(** A disjunction that is the whole pattern, tried at the head of [s]:
    the first alternative that matches decides; the result is the input
    left after the match. *)
Fixpoint matchAt (alts : list regex) (s : Str) : option Str :=
  match alts with
  | [] => None
  | r :: alts' =>
      match rmatch r s None (fun rest _ => Some rest) with
      | Some rest => Some rest
      | None => matchAt alts' s
      end
  end.

(** [text.replace(re, before + "$1" + after)] for a pattern [re] with the
    flags [gi] that is one capture group around the disjunction [alts]:
    scanning from the left, every match is wrapped in [before] and
    [after]; the search goes on behind the match, or one code unit
    further on when the match is empty.  [fuel] bounds the number of
    steps; [None] means the bound was reached. *)
Fixpoint replaceLoop (fuel : nat) (alts : list regex) (before after : Str)
    (s : Str) : option Str :=
  match fuel with
  | 0 => None
  | S fuel' =>
      match matchAt alts s with
      | Some rest =>
          if length rest <? length s then
            match replaceLoop fuel' alts before after rest with
            | Some out =>
                Some (before ++ take (length s - length rest) s ++ after ++ out)
            | None => None
            end
          else
            match s with
            | [] => Some (before ++ after)
            | c :: s' =>
                match replaceLoop fuel' alts before after s' with
                | Some out => Some (before ++ after ++ c :: out)
                | None => None
                end
            end
      | None =>
          match s with
          | [] => Some []
          | c :: s' =>
              match replaceLoop fuel' alts before after s' with
              | Some out => Some (c :: out)
              | None => None
              end
          end
      end
  end.

Definition replaceAll (alts : list regex) (before after : Str) (text : Str)
    : option Str :=
  replaceLoop (S (length text)) alts before after text.

(** The double quote. *)
Definition quote : N := 34%N.

(** The opening tag of a span of the given class. *)
Definition spanOpen (class : string) : Str :=
  lit "<span class=" ++ [quote] ++ lit class ++ [quote] ++ lit ">".

Definition spanClose : Str := lit "</span>".

Definition highlightContent (text : Str) : option Str :=
  match replaceAll dosageTerms (spanOpen "highlight-dosage") spanClose text with
  | None => None
  | Some text1 =>
      match replaceAll warningTerms (spanOpen "highlight-warning") spanClose
              text1 with
      | None => None
      | Some text2 =>
          replaceAll contraindicationTerms
            (spanOpen "highlight-contraindication") spanClose text2
      end
  end.

(** Some alternative matches somewhere in [s]. *)
Fixpoint hasMatch (alts : list regex) (s : Str) : bool :=
  match matchAt alts s with
  | Some _ => true
  | None =>
      match s with
      | [] => false
      | _ :: s' => hasMatch alts s'
      end
  end.

(** None of the three patterns matches anywhere in the text. *)
Definition plain (text : Str) : bool :=
  negb (hasMatch dosageTerms text) && negb (hasMatch warningTerms text)
  && negb (hasMatch contraindicationTerms text).

End Highlight.

(** ** ChatMessage.jsx: well-formed parts *)

Module Parts.

(** The shape of a part pushed by [extractCitations]: its content is not
    empty; a citation starts with an opening and ends with a closing
    parenthesis, and its [pages] field is what stands right before the
    closing parenthesis; a text part has no [pages] field. *)
Definition wellFormed (p : Part) : Prop :=
  content p <> []
  /\ match type p with
     | type_citation =>
         exists before pg,
           content p = cu "(" :: before ++ pg ++ [cu ")"]
           /\ pages p = Some pg
     | type_text => pages p = None
     end.

(** "page" in any mix of upper and lower case. *)
Definition pageWord (w : Str) : Prop :=
  map canonicalize w = lit "PAGE".

(** A citation written as an opening parenthesis, a word, white space, a
    number of first digit [d] and further digits [ds], and a closing
    parenthesis. *)
Definition citationText (w ws : Str) (d : N) (ds : Str) : Str :=
  cu "(" :: w ++ ws ++ d :: ds ++ [cu ")"].

End Parts.

(** ** ChatPanel.jsx: runs of the panel *)

Module PanelRuns.

(** No event of the run is a click on Clear Chat. *)
Definition noClear (es : list (ChatPanel.Props * ChatPanel.Event)) : Prop :=
  Forall (fun pe => snd pe <> ChatPanel.ClickClear) es.

(** The transcript and the flags fit together: the roles alternate
    beginning with the user, the transcript has odd length exactly while
    the panel is loading, and the panel is loading exactly while a call
    is awaited. *)
Definition consistent (w : ChatPanel.Panel) : Prop :=
  ChatPanel.alternates ChatPanel.user (ChatPanel.messages (ChatPanel.state w))
  = true
  /\ Nat.odd (length (ChatPanel.messages (ChatPanel.state w)))
     = ChatPanel.isLoading (ChatPanel.state w)
  /\ (ChatPanel.isLoading (ChatPanel.state w) = true
      <-> ChatPanel.inflight w <> None).

(** A request that carries the session id [sid] and a question that is
    not blank. *)
Definition properRequest (sid : Str) (r : ChatRequest) : Prop :=
  session_id r = sid /\ trim (question r) <> [].

(** The panel is loading exactly while a call is awaited. *)
Definition loadingIffAwaited (w : ChatPanel.Panel) : Prop :=
  ChatPanel.isLoading (ChatPanel.state w) = true
  <-> ChatPanel.inflight w <> None.

(** The questions of the user entries of a transcript, in order. *)
Definition questionsAsked (ms : list ChatPanel.Message) : list Str :=
  concat (map (fun m => match ChatPanel.role m with
                        | ChatPanel.user => [ChatPanel.msg_content m]
                        | ChatPanel.assistant => []
                        end) ms).

(** The questions sent are the questions shown. *)
Definition inStep (w : ChatPanel.Panel) : Prop :=
  map question (ChatPanel.calls w) = questionsAsked (ChatPanel.messages (ChatPanel.state w)).

(** An event other than the settling of the awaited call. *)
Definition notSettle (e : ChatPanel.Event) : Prop :=
  match e with
  | ChatPanel.Settle _ _ => False
  | _ => True
  end.

(** An empty transcript with no call awaited: a panel just mounted, or
    cleared while idle. *)
Definition idleAndEmpty (w : ChatPanel.Panel) : Prop :=
  ChatPanel.messages (ChatPanel.state w) = []
  /\ ChatPanel.isLoading (ChatPanel.state w) = false
  /\ ChatPanel.inflight w = None.

End PanelRuns.

(** ** UploadPanel.jsx and App.jsx: the dropzone, the error banner, the
    health indicator *)

Module AppUi.

(** [useDropzone({ ..., disabled: isProcessing })]. *)
Definition dropzoneDisabled (st : App.State) : bool := App.isProcessing st.

(** An event of the upload flow as the user interface delivers it: a
    disabled dropzone accepts no drop. *)
Definition uiStep (e : App.Event) (w : App.State * App.UploadState)
    : App.State * App.UploadState :=
  match e with
  | App.Drop _ _ _ => if dropzoneDisabled (fst w) then w else App.step e w
  | App.Timer => App.step e w
  end.

Definition uiRun (es : list App.Event) (w : App.State * App.UploadState)
    : App.State * App.UploadState :=
  foldl (fun w e => uiStep e w) w es.

(** The event is a drop. *)
Definition isDrop (e : App.Event) : Prop :=
  match e with App.Drop _ _ _ => True | App.Timer => False end.

(** [{error && (...)}]: the text of the error banner, when it is
    rendered. *)
Definition errorBanner (st : App.State) : option Str :=
  if truthy_opt (App.error st) then App.error st else None.

(** [{documentInfo && (...)}]: the file name shown in the document
    information card, when it is rendered. *)
Definition documentCard (st : App.State) : option Str :=
  filename <$> App.documentInfo st.

(** The session id is the one App started with; the document id is the id
    of the document shown in the card; the upload panel marks a file as
    processed exactly when a document is loaded; an error and a document
    are never shown together. *)
Definition coherent (sid : Str) (w : App.State * App.UploadState) : Prop :=
  App.sessionId (fst w) = sid
  /\ App.documentId (fst w) = up_document_id <$> App.documentInfo (fst w)
  /\ (App.uploadedFile (snd w) = None <-> App.documentInfo (fst w) = None)
  /\ (App.error (fst w) = None \/ App.documentInfo (fst w) = None).

(** [response.data] of [GET /health], as far as [App] reads it. *)
Record Health : Type := mkHealth { lm_studio_connected : bool }.

Inductive HealthOutcome : Type :=
| HealthResolved (health : Health)
| HealthRejected.

Inductive Status : Type := checking | connected | degraded | error.

Record ApiStatus : Type := mkApiStatus {
  status : Status;
  lmStudioConnected : bool
}.

Definition initialApiStatus : ApiStatus := mkApiStatus checking false.

(** [checkApiHealth]: the value it passes to [setApiStatus]. *)
Definition checkApiHealth (outcome : HealthOutcome) : ApiStatus :=
  match outcome with
  | HealthResolved health =>
      mkApiStatus
        (if lm_studio_connected health then connected else degraded)
        (lm_studio_connected health)
  | HealthRejected => mkApiStatus error false
  end.

Inductive Color : Type := green | yellow | red | gray.

(** The class of the status dot. *)
Definition indicator (a : ApiStatus) : Color :=
  match status a with
  | connected => green
  | degraded => yellow
  | error => red
  | checking => gray
  end.

(** The label beside the dot. *)
Definition label (a : ApiStatus) : Str :=
  if lmStudioConnected a then lit "LM Studio Connected"
  else lit "LM Studio Disconnected".

End AppUi.

(** ** DocumentList.jsx *)

Module DocumentList.

Record Document : Type := mkDocument {
  document_id : Str;
  doc_filename : Str;
  upload_date : Str;
  doc_page_count : nat;
  doc_chunk_count : nat
}.

Record Props : Type := mkProps {
  currentDocumentId : option Str;
  onDocumentSelect : bool;       (* whether the callback is passed *)
  onDocumentDeleted : bool       (* whether the callback is passed *)
}.

Record State : Type := mkState {
  documents : list Document;
  loading : bool;
  deleting : option Str
}.

Definition initialState : State := mkState [] true None.

(** How [listDocuments()] settles; [response.documents] may be missing. *)
Inductive ListOutcome : Type :=
| ListResolved (documents : option (list Document))
| ListRejected.

(** How [deleteDocument(id)] settles; a rejection carries
    [error.response?.data?.detail], when present, and [error.message]. *)
Inductive DeleteOutcome : Type :=
| DeleteResolved
| DeleteRejected (detail : option Str) (message : Str).

(** What the component does to the outside. *)
Inductive Effect : Type :=
| Confirm (prompt : Str)
| CallListDocuments
| CallDeleteDocument (documentId : Str)
| NotifyDeleted (documentId : Str)
| NotifySelected (documentId : Str)
| Alert (message : Str).

(** [fetchDocuments], run to completion. *)
Definition fetchDocuments (outcome : ListOutcome) (st : State)
    : State * list Effect :=
  match outcome with
  | ListResolved ds => (mkState (default [] ds) false (deleting st),
                        [CallListDocuments])
  | ListRejected => (mkState (documents st) false (deleting st),
                     [CallListDocuments])
  end.

Definition confirmPrompt (filename : Str) : Str :=
  lit "Are you sure you want to delete " ++ [34%N] ++ filename ++ [34%N]
  ++ lit "?".

(** [error.response?.data?.detail || error.message]. *)
Definition deleteErrorText (detail : option Str) (message : Str) : Str :=
  if truthy_opt detail then default [] detail else message.

(** [handleDelete(documentId, filename)], run to completion; [confirmed]
    is the answer to the confirmation dialog. *)
Definition handleDelete (p : Props) (documentId filename : Str)
    (confirmed : bool) (outcome : DeleteOutcome) (st : State)
    : State * list Effect :=
  if negb confirmed then (st, [Confirm (confirmPrompt filename)])
  else
    match outcome with
    | DeleteResolved =>
        (mkState (filter (fun doc => document_id doc <> documentId)
                    (documents st))
           (loading st) None,
         [Confirm (confirmPrompt filename); CallDeleteDocument documentId]
         ++ (if onDocumentDeleted p then [NotifyDeleted documentId] else []))
    | DeleteRejected detail message =>
        (mkState (documents st) (loading st) None,
         [Confirm (confirmPrompt filename); CallDeleteDocument documentId;
          Alert (lit "Failed to delete document: "
                 ++ deleteErrorText detail message)])
    end.

(** What the component renders. *)
Inductive View : Type :=
| Spinner                                   (* "Loading documents..." *)
| NoDocuments                               (* "No documents uploaded yet." *)
| Listing (count : nat) (rows : list (Document * bool * bool)).
    (* per row: the document, "Currently active", Delete disabled *)

Definition render (p : Props) (st : State) : View :=
  if loading st then Spinner
  else if length (documents st) =? 0 then NoDocuments
  else Listing (length (documents st))
         (map (fun doc =>
                 (doc,
                  bool_decide (currentDocumentId p = Some (document_id doc)),
                  bool_decide (deleting st = Some (document_id doc))))
            (documents st)).

(** A sample document. *)
Definition doc (id name : string) : Document :=
  mkDocument (lit id) (lit name) (lit "2026-01-01") 1 1.

(** The deletion did not take place: the user declined, or the server
    refused. *)
Definition notDeleted (confirmed : bool) (outcome : DeleteOutcome) : Prop :=
  confirmed = false \/ outcome <> DeleteResolved.

End DocumentList.

(** ** Sample states and inputs *)

Module Samples.

Definition props : ChatPanel.Props := ChatPanel.mkProps (Some (lit "d1")) (lit "s1").

Definition noDocument : ChatPanel.Props := ChatPanel.mkProps None (lit "s1").

(** A transcript of one entry and three spaces in the textarea. *)
Definition threeSpaces : ChatPanel.State :=
  ChatPanel.mkState [ChatPanel.userMessage (lit "dose?") (lit "t0")]
    (lit "   ") false.

(** A question typed into an empty panel. *)
Definition asking : ChatPanel.State :=
  ChatPanel.mkState [] (lit "What are the boxed warnings?") false.

(** A panel awaiting the answer to its first question. *)
Definition waiting : ChatPanel.Panel :=
  ChatPanel.mkPanel
    (ChatPanel.mkState [ChatPanel.userMessage (lit "dose?") (lit "t0")] [] true)
    (Some (sendMessage (lit "dose?") (lit "s1") (Some (lit "d1")))) [].

Definition twoSends : list ChatPanel.Send :=
  [ChatPanel.mkSend (lit "What are the boxed warnings?") (lit "t1") (lit "t2")
     (ChatResolved (mkChatResponse (lit "See the label (Page 1)") (lit "t2") []));
   ChatPanel.mkSend (lit "And the dose?") (lit "t3") (lit "t4") ChatRejected].

Definition ex (q a : string) : ConversationMemory.Exchange :=
  ConversationMemory.mkExchange (lit q) (lit "t") (lit a) (lit "t").

(** Two chunks carrying the pages 12, 9 and 9. *)
Definition twoChunks : RetrievedContext :=
  [mkRetrieved (mkChunk (lit "c7") 7 [12; 9]%positive) (1 # 2) (3 # 4);
   mkRetrieved (mkChunk (lit "c3") 3 [9]%positive) (1 # 3) (1 # 3)].

End Samples.

(** * Properties *)

(** ** The matcher consumes a prefix of its input *)

Lemma rmatch_suffix (r : regex) :
  forall (A : Type) (s : Str) (cap : option Str)
         (k : Str -> option Str -> option A) (x : A),
    rmatch r s cap k = Some x ->
    exists s' cap', s' `suffix_of` s /\ k s' cap' = Some x.
Proof.
  induction r as [c | | | r1 IH1 r2 IH2 | r1 IH | r1 IH | r1 IH];
    intros A s cap k x H.
  - destruct s as [|ch s']; simpl in H; [discriminate|].
    destruct (_ =? _)%N; [|discriminate].
    exists s', cap. split; [apply suffix_cons_r; reflexivity | exact H].
  - destruct s as [|ch s']; simpl in H; [discriminate|].
    destruct (isWhiteSpace ch); [|discriminate].
    exists s', cap. split; [apply suffix_cons_r; reflexivity | exact H].
  - destruct s as [|ch s']; simpl in H; [discriminate|].
    destruct (isDigit ch); [|discriminate].
    exists s', cap. split; [apply suffix_cons_r; reflexivity | exact H].
  - simpl in H. apply IH1 in H as (s1 & c1 & Hs1 & H).
    apply IH2 in H as (s2 & c2 & Hs2 & H).
    exists s2, c2. split; [etrans; eassumption | exact H].
  - cbn [rmatch] in H.
    remember (length s) as n eqn:Hn. clear Hn. revert s cap H.
    induction n as [|n IHn]; intros s cap H.
    + exists s, cap. split; [reflexivity | exact H].
    + cbn [repeatMatcher] in H.
      destruct (rmatch r1 s cap _) as [y|] eqn:E.
      * injection H as ->. apply IH in E as (s1 & c1 & Hs1 & E).
        destruct (length s1 <? length s); [|discriminate].
        apply IHn in E as (s2 & c2 & Hs2 & E).
        exists s2, c2. split; [etrans; eassumption | exact E].
      * exists s, cap. split; [reflexivity | exact H].
  - simpl in H. destruct (rmatch r1 s cap _) as [y|] eqn:E.
    + injection H as ->. apply IH in E as (s1 & c1 & Hs1 & E).
      destruct (length s1 <? length s); [|discriminate].
      exists s1, c1. split; assumption.
    + exists s, cap. split; [reflexivity | exact H].
  - simpl in H. apply IH in H as (s1 & c1 & Hs1 & H).
    exists s1, (Some (take (length s - length s1) s)). split; assumption.
Qed.

Lemma suffix_take_length (s rest : Str) :
  rest `suffix_of` s -> take (length s - length rest) s ++ rest = s.
Proof.
  intros [pre ->]. rewrite length_app.
  replace (length pre + length rest - length rest) with (length pre) by lia.
  rewrite take_app_length. reflexivity.
Qed.

Lemma consuming_chr_seq (c : N) (r : regex) : consuming (Seq (Chr c) r).
Proof.
  intros A s cap k x H. simpl in H.
  destruct s as [|ch s']; [discriminate|].
  destruct (_ =? _)%N; [|discriminate].
  apply rmatch_suffix in H as (s2 & c2 & Hs2 & H).
  exists s2, c2. split; [|split].
  - apply suffix_cons_r. exact Hs2.
  - apply suffix_length in Hs2. simpl. lia.
  - exact H.
Qed.

Lemma citationRegex_consuming : consuming citationRegex.
Proof. apply consuming_chr_seq. Qed.

Section Exec.

Variable r : regex.
Hypothesis r_consuming : consuming r.

Lemma exec_from_spec (s : Str) :
  forall (i : nat) (m : MatchResult),
    exec_from r s i = Some m ->
    exists pre rest,
      s = pre ++ m0 m ++ rest /\ index m = i + length pre
      /\ 0 < length (m0 m).
Proof.
  induction s as [|ch s IH]; intros i m H; simpl in H.
  - destruct (rmatch r [] None _) as [[rest cap]|] eqn:E; [|discriminate].
    apply r_consuming in E as (s' & c' & _ & Hlt & _). simpl in Hlt. lia.
  - destruct (rmatch r (ch :: s) None _) as [[rest cap]|] eqn:E.
    + injection H as <-. simpl.
      apply r_consuming in E as (s' & c' & Hsuf & Hlt & E).
      injection E as -> ->.
      exists [], rest. simpl. split; [|split].
      * symmetry. apply (suffix_take_length (ch :: s) rest Hsuf).
      * lia.
      * rewrite length_take. simpl in Hlt |- *. lia.
    + apply IH in H as (pre & rest & Hs & Hi & Hlen).
      exists (ch :: pre), rest. simpl. split; [|split].
      * f_equal. exact Hs.
      * lia.
      * exact Hlen.
Qed.

Lemma exec_spec (text : Str) (lastIndex : nat) (m : MatchResult) (last' : nat) :
  exec r text lastIndex = (Some m, last') ->
  lastIndex <= index m /\ last' = index m + length (m0 m)
  /\ last' <= length text /\ 0 < length (m0 m)
  /\ take last' text
     = take lastIndex text ++ slice text lastIndex (index m) ++ m0 m.
Proof.
  unfold exec. intros H.
  destruct (length text <? lastIndex) eqn:Hlt; [discriminate|].
  apply Nat.ltb_ge in Hlt.
  destruct (exec_from r (drop lastIndex text) lastIndex) as [m'|] eqn:E;
    [|discriminate].
  injection H as -> <-.
  apply exec_from_spec in E as (pre & rest & Hs & Hi & Hlen).
  assert (Hslice : slice text lastIndex (index m) = pre).
  { unfold slice. rewrite Hs, Hi.
    replace (lastIndex + length pre - lastIndex) with (length pre) by lia.
    apply take_app_length. }
  rewrite Hslice.
  pose proof (take_drop lastIndex text) as Htd.
  assert (Hl1 : length (take lastIndex text) = lastIndex)
    by (rewrite length_take; lia).
  remember (take lastIndex text) as t1 eqn:Ht1. clear Ht1 Hslice.
  rewrite Hs in Htd. clear Hs. subst text.
  split; [lia|]. split; [reflexivity|]. split.
  - rewrite !length_app. lia.
  - split; [exact Hlen|].
    replace (index m + length (m0 m)) with (length (t1 ++ pre ++ m0 m))
      by (rewrite !length_app; lia).
    rewrite !app_assoc. apply take_app_length.
Qed.

End Exec.

(** ** extractCitations *)

Lemma contents_snoc (parts : list Part) (p : Part) :
  contents (parts ++ [p]) = contents parts ++ content p.
Proof.
  unfold contents. rewrite map_app, concat_app. simpl.
  rewrite app_nil_r. reflexivity.
Qed.

(** The loop ends within [length text - lastIndex + 1] iterations, and the
    parts it has pushed spell out the text up to [lastIndex]. *)
Lemma extractLoop_spec (text : Str) :
  forall (fuel lastIndex : nat) (parts : list Part),
    lastIndex <= length text ->
    length text - lastIndex < fuel ->
    contents parts = take lastIndex text ->
    exists last' parts',
      extractLoop fuel text lastIndex lastIndex parts = Some (last', parts')
      /\ last' <= length text
      /\ contents parts' = take last' text
      /\ length parts <= length parts'.
Proof.
  induction fuel as [|fuel IH]; intros lastIndex parts Hle Hfuel Hinv; [lia|].
  simpl. destruct (exec citationRegex text lastIndex) as [[m|] reLast'] eqn:E.
  - apply (exec_spec _ citationRegex_consuming) in E
      as (Hidx & -> & Hle' & Hpos & Htake).
    destruct (IH (index m + length (m0 m))
                (( if lastIndex <? index m
                   then parts ++ [mkPart type_text
                                    (slice text lastIndex (index m)) None]
                   else parts) ++ [mkPart type_citation (m0 m) (m1 m)]))
      as (last' & parts' & Hrun & Hl & Hc & Hn).
    + exact Hle'.
    + lia.
    + rewrite contents_snoc, Htake. simpl.
      destruct (lastIndex <? index m) eqn:Hlt.
      * rewrite contents_snoc, Hinv. simpl. rewrite <- app_assoc. reflexivity.
      * apply Nat.ltb_ge in Hlt. rewrite Hinv. unfold slice.
        replace (index m - lastIndex) with 0 by lia. reflexivity.
    + exists last', parts'. split; [exact Hrun|]. split; [exact Hl|].
      split; [exact Hc|].
      rewrite length_app in Hn. destruct (lastIndex <? index m).
      * rewrite length_app in Hn. lia.
      * lia.
  - exists lastIndex, parts. repeat split; [exact Hle | exact Hinv | lia].
Qed.

(** Without a match the loop body never runs and the text is returned as
    one text part. *)
Lemma extractCitations_no_match (text : Str) :
  fst (exec citationRegex text 0) = None ->
  extractCitations text = Some [mkPart type_text text None].
Proof.
  intros Hnone. unfold extractCitations. simpl.
  destruct (exec citationRegex text 0) as [[m|] l]; [discriminate|].
  destruct text as [|c text']; reflexivity.
Qed.

(** C9: for every input, extractCitations returns a non-empty list of
    parts whose content fields, concatenated in order, are the input; an
    input in which the citation pattern has no match yields the single
    text part holding the input. *)
Theorem extractCitations_partition (text : Str) :
  exists parts,
    extractCitations text = Some parts
    /\ parts <> []
    /\ contents parts = text
    /\ (fst (exec citationRegex text 0) = None ->
        parts = [mkPart type_text text None]).
Proof.
  assert (Hno := extractCitations_no_match text).
  unfold extractCitations in *.
  destruct (extractLoop_spec text (S (length text)) 0 [])
    as (last' & parts' & Hrun & Hle & Hc & _); [lia | lia | reflexivity |].
  rewrite Hrun in *.
  eexists. split; [reflexivity|]. split; [|split].
  - destruct (last' <? length text).
    + rewrite length_app. simpl.
      replace (0 <? length parts' + 1) with true
        by (symmetry; apply Nat.ltb_lt; lia).
      destruct parts'; discriminate.
    + destruct parts'; simpl; discriminate.
  - destruct (last' <? length text) eqn:Hlt.
    + rewrite length_app. simpl.
      replace (0 <? length parts' + 1) with true
        by (symmetry; apply Nat.ltb_lt; lia).
      rewrite contents_snoc, Hc. simpl. apply take_drop.
    + apply Nat.ltb_ge in Hlt.
      destruct parts' as [|p ps]; simpl.
      * unfold contents. simpl. apply app_nil_r.
      * rewrite Hc. apply take_ge. lia.
  - intros Hnone. apply Hno in Hnone. congruence.
Qed.

(** The partition property at an input without citation. *)
Lemma extractCitations_partition_witness :
  exists parts,
    extractCitations (lit "Take 15 mg once daily.") = Some parts
    /\ parts = [mkPart type_text (lit "Take 15 mg once daily.") None].
Proof.
  destruct (extractCitations_partition (lit "Take 15 mg once daily."))
    as (parts & Hrun & _ & _ & Hnone).
  exists parts. split; [exact Hrun | apply Hnone; vm_compute; reflexivity].
Defined.

(** ** Citations in the plural form *)

Lemma rmatch_chr_seq {A : Type} (c : N) (r : regex) (ch : N) (s : Str)
    (cap : option Str) (k : Str -> option Str -> option A) :
  rmatch (Seq (Chr c) r) (ch :: s) cap k
  = if (canonicalize ch =? canonicalize c)%N then rmatch r s cap k else None.
Proof. reflexivity. Qed.

Lemma rmatch_citation_head {A : Type} (ch : N) (s : Str) (cap : option Str)
    (k : Str -> option Str -> option A) :
  notParen ch -> rmatch citationRegex (ch :: s) cap k = None.
Proof.
  intros Hne. unfold citationRegex. rewrite rmatch_chr_seq.
  destruct (canonicalize ch =? canonicalize (cu "("))%N eqn:E; [|reflexivity].
  exfalso. apply Hne. apply N.eqb_eq in E.
  change (canonicalize (cu "(")) with 40%N in E.
  change (cu "(") with 40%N. unfold canonicalize in E.
  destruct ((97 <=? ch) && (ch <=? 122))%N eqn:Hr; [|exact E].
  apply andb_true_iff in Hr as [H1 H2].
  apply N.leb_le in H1, H2. lia.
Qed.

(** The pattern has no match in a string without an opening parenthesis. *)
Lemma exec_from_no_paren (s : Str) :
  forall i : nat, Forall notParen s -> exec_from citationRegex s i = None.
Proof.
  induction s as [|ch s IH]; intros i Hall.
  - reflexivity.
  - inversion Hall as [|? ? Hch Hs]; subst.
    cbn [exec_from]. rewrite rmatch_citation_head by exact Hch.
    apply IH. exact Hs.
Qed.

Lemma noParen_Forall (s : Str) : noParen s = true -> Forall notParen s.
Proof.
  unfold noParen. rewrite forallb_forall. intros H.
  apply Forall_forall. intros c Hc. apply list_elem_of_In in Hc.
  apply H in Hc. apply negb_true_iff, N.eqb_neq in Hc. exact Hc.
Qed.

Lemma lit_notParen (l : string) : noParen (lit l) = true -> Forall notParen (lit l).
Proof. apply noParen_Forall. Qed.

(** ... nor in "(Pages " followed by such a string: the [s] is not white
    space. *)
Lemma exec_pages_prefix (rest : Str) :
  Forall notParen rest ->
  fst (exec citationRegex (lit "(Pages " ++ rest) 0) = None.
Proof.
  intros Hall. unfold exec.
  change (length (lit "(Pages " ++ rest) <? 0) with false. cbv iota.
  change (drop 0 (lit "(Pages " ++ rest))
    with (cu "(" :: (lit "Pages " ++ rest)).
  cbn [exec_from].
  replace (rmatch citationRegex (cu "(" :: lit "Pages " ++ rest) None
             (fun rest0 cap => Some (rest0, cap)))
    with (@None (Str * option Str)) by (vm_compute; reflexivity).
  rewrite exec_from_no_paren; [reflexivity|].
  apply Forall_app. split; [apply lit_notParen; reflexivity | exact Hall].
Qed.

Lemma digits_notParen (u : Decimal.uint) : Forall notParen (digits u).
Proof.
  induction u; cbn [digits]; constructor; try assumption;
    intros E; vm_compute in E; discriminate E.
Qed.

Lemma showPage_notParen (p : positive) : Forall notParen (showPage p).
Proof. apply digits_notParen. Qed.

Lemma oxfordTail_notParen (ps : list positive) : Forall notParen (oxfordTail ps).
Proof.
  induction ps as [|p ps IH]; [constructor|].
  destruct ps as [|q ps].
  - change (Forall notParen (lit ", and " ++ showPage p)).
    apply Forall_app. split;
      [apply lit_notParen; reflexivity | apply showPage_notParen].
  - change (Forall notParen (lit ", " ++ showPage p ++ oxfordTail (q :: ps))).
    apply Forall_app. split; [apply lit_notParen; reflexivity|].
    apply Forall_app. split; [apply showPage_notParen | exact IH].
Qed.

Lemma formatCitation_plural (ps : list positive) :
  2 <= length ps ->
  exists rest, formatCitation ps = lit "(Pages " ++ rest /\ Forall notParen rest.
Proof.
  destruct ps as [|p [|q [|r ps]]]; cbn [length]; intros Hlen; try lia.
  - exists (showPage p ++ lit " and " ++ showPage q ++ lit ")").
    split; [reflexivity|].
    apply Forall_app; split; [apply showPage_notParen|].
    apply Forall_app; split; [apply lit_notParen; reflexivity|].
    apply Forall_app; split;
      [apply showPage_notParen | apply lit_notParen; reflexivity].
  - exists (showPage p ++ oxfordTail (q :: r :: ps) ++ lit ")").
    split; [reflexivity|].
    apply Forall_app; split; [apply showPage_notParen|].
    apply Forall_app; split;
      [apply oxfordTail_notParen | apply lit_notParen; reflexivity].
Qed.

(** C1 (the code departs from the claim): a citation in the canonical
    plural format, "(Pages N and M)" or "(Pages N, M, and K)", is never
    matched by the pattern of extractCitations, whose literal "Page" must
    be followed by white space; the citation comes back as one part of
    type text. *)
Theorem extractCitations_misses_plural (ps : list positive) :
  2 <= length ps ->
  extractCitations (formatCitation ps)
  = Some [mkPart type_text (formatCitation ps) None].
Proof.
  intros Hlen. apply formatCitation_plural in Hlen as (rest & -> & Hall).
  apply extractCitations_no_match, exec_pages_prefix, Hall.
Qed.

(** The canonical citation of pages 9 and 12 is rendered as plain text. *)
Lemma extractCitations_misses_plural_witness :
  2 <= length [9; 12]%positive
  /\ extractCitations (lit "(Pages 9 and 12)")
     = Some [mkPart type_text (lit "(Pages 9 and 12)") None].
Proof.
  split; [simpl; lia|].
  apply (extractCitations_misses_plural [9; 12]%positive). simpl. lia.
Defined.

(** ** Citations in the singular form *)

Lemma repeat_digit_greedy {A : Type} (k : Str -> option Str -> option A) (x : A)
    (rest : Str) (cap : option Str) (ds : Str) :
  Forall digit ds ->
  match rest with c :: _ => isDigit c = false | [] => True end ->
  k rest cap = Some x ->
  forall n, length ds <= n ->
    repeatMatcher (rmatch Digit) k n (ds ++ rest) cap = Some x.
Proof.
  intros Hds Hrest Hk. induction Hds as [|d ds Hd _ IH]; intros n Hn.
  - cbn [app]. destruct n as [|n]; [exact Hk|].
    cbn [repeatMatcher rmatch]. destruct rest as [|c rest']; [exact Hk|].
    rewrite Hrest. exact Hk.
  - destruct n as [|n]; [cbn in Hn; lia|].
    cbn [repeatMatcher rmatch app]. unfold digit in Hd. rewrite Hd.
    replace (length (ds ++ rest) <? length (d :: ds ++ rest)) with true
      by (symmetry; apply Nat.ltb_lt; cbn; lia).
    rewrite IH by (cbn in Hn; lia). reflexivity.
Qed.

Lemma rmatch_chr_same {A : Type} (c : N) (r : regex) (s : Str)
    (cap : option Str) (k : Str -> option Str -> option A) :
  rmatch (Seq (Chr c) r) (c :: s) cap k = rmatch r s cap k.
Proof. cbn [rmatch]. rewrite N.eqb_refl. reflexivity. Qed.

Lemma rmatch_one_space {A : Type} (r : regex) (sp c : N) (s : Str)
    (cap : option Str) (k : Str -> option Str -> option A) :
  isWhiteSpace sp = true -> isWhiteSpace c = false ->
  rmatch (Seq (Plus Space) r) (sp :: c :: s) cap k = rmatch r (c :: s) cap k.
Proof.
  intros Hsp Hc. cbn [rmatch Plus length repeatMatcher]. rewrite Hsp, Hc.
  reflexivity.
Qed.

Lemma rmatch_group_seq {A : Type} (g r : regex) (s : Str)
    (cap : option Str) (k : Str -> option Str -> option A) :
  rmatch (Seq (Group g) r) s cap k
  = rmatch g s cap
      (fun s1 _ => rmatch r s1 (Some (take (length s - length s1) s)) k).
Proof. reflexivity. Qed.

Lemma morePages_fails_at_paren {A : Type} (cap : option Str)
    (k : Str -> option Str -> option A) :
  rmatch morePages [cu ")"] cap k = None.
Proof. reflexivity. Qed.

Lemma digit_not_space (c : N) : digit c -> isWhiteSpace c = false.
Proof.
  unfold digit, isDigit, isWhiteSpace. intros H.
  apply andb_true_iff in H as [H1 H2]. apply N.leb_le in H1, H2.
  repeat (apply orb_false_iff; split);
    try (apply N.eqb_neq; lia);
    apply andb_false_iff; [right | left]; apply N.leb_gt; lia.
Qed.

Lemma pageNumbers_greedy {A : Type} (k : Str -> option Str -> option A) (x : A)
    (d : N) (ds : Str) (cap : option Str) :
  digit d -> Forall digit ds ->
  k [cu ")"] cap = Some x ->
  rmatch pageNumbers (d :: ds ++ [cu ")"]) cap k = Some x.
Proof.
  intros Hd Hds Hk. unfold pageNumbers, Plus.
  cbn [rmatch]. unfold digit in Hd. rewrite Hd.
  apply repeat_digit_greedy.
  - exact Hds.
  - reflexivity.
  - cbn [length repeatMatcher]. rewrite morePages_fails_at_paren. exact Hk.
  - rewrite length_app. lia.
Qed.

Lemma rmatch_citation_singular (d : N) (ds : Str) :
  digit d -> Forall digit ds ->
  rmatch citationRegex (lit "(Page " ++ d :: ds ++ lit ")") None
    (fun rest cap => Some (rest, cap))
  = Some ([], Some (d :: ds)).
Proof.
  intros Hd Hds. unfold citationRegex.
  change (lit "(Page " ++ d :: ds ++ lit ")")
    with (cu "(" :: cu "P" :: cu "a" :: cu "g" :: cu "e" :: cu " "
          :: d :: ds ++ [cu ")"]).
  rewrite !rmatch_chr_same.
  rewrite rmatch_one_space by (reflexivity || apply digit_not_space, Hd).
  rewrite rmatch_group_seq.
  apply pageNumbers_greedy; [exact Hd | exact Hds |].
  cbn [rmatch]. rewrite N.eqb_refl. do 3 f_equal.
  cbn [length]. rewrite length_app. cbn [length].
  replace (S (length ds + 1) - 1) with (length (d :: ds)) by (cbn; lia).
  rewrite (app_comm_cons ds). apply take_app_length.
Qed.

Lemma exec_singular (d : N) (ds : Str) :
  digit d -> Forall digit ds ->
  let text := lit "(Page " ++ d :: ds ++ lit ")" in
  exec citationRegex text 0
  = (Some (mkMatch 0 text (Some (d :: ds))), length text).
Proof.
  intros Hd Hds text. unfold exec.
  change (length text <? 0) with false. cbv iota. rewrite drop_0.
  assert (Hm := rmatch_citation_singular d ds Hd Hds). fold text in Hm.
  assert (Hcons : exists c t, text = c :: t) by (eexists _, _; reflexivity).
  destruct Hcons as (c & t & Heq).
  assert (Hx : exec_from citationRegex text 0
               = Some (mkMatch 0 text (Some (d :: ds)))).
  { clearbody text. subst text. cbn [exec_from]. rewrite Hm.
    cbn [length]. rewrite Nat.sub_0_r.
    change (S (length t)) with (length (c :: t)). rewrite firstn_all.
    reflexivity. }
  rewrite Hx. reflexivity.
Qed.

Lemma exec_at_end (text : Str) :
  exec citationRegex text (length text) = (None, 0).
Proof.
  unfold exec. rewrite Nat.ltb_irrefl, drop_all.
  destruct (length text); reflexivity.
Qed.

Lemma extractLoop_S (fuel : nat) (text : Str) (reLast lastIndex : nat)
    (parts : list Part) :
  extractLoop (S fuel) text reLast lastIndex parts
  = match exec citationRegex text reLast with
    | (None, _) => Some (lastIndex, parts)
    | (Some m, reLast') =>
        extractLoop fuel text reLast' (index m + length (m0 m))
          ((if lastIndex <? index m
            then parts ++ [mkPart type_text (slice text lastIndex (index m)) None]
            else parts) ++ [mkPart type_citation (m0 m) (m1 m)])
    end.
Proof. reflexivity. Qed.

(** A text that the pattern matches as a whole is one citation part. *)
Lemma extractCitations_whole (text : Str) (cap : option Str) :
  text <> [] ->
  exec citationRegex text 0 = (Some (mkMatch 0 text cap), length text) ->
  extractCitations text = Some [mkPart type_citation text cap].
Proof.
  intros Hne Hexec. unfold extractCitations.
  rewrite extractLoop_S, Hexec. cbn [index m0 m1 Nat.ltb Nat.leb app Nat.add].
  destruct (length text) as [|n] eqn:Hlen.
  { destruct text; [contradiction | discriminate]. }
  rewrite extractLoop_S. rewrite <- Hlen, exec_at_end.
  rewrite Hlen.
  replace (S n <=? n) with false by (symmetry; apply Nat.leb_gt; lia).
  reflexivity.
Qed.

Lemma digits_digit (u : Decimal.uint) : Forall digit (digits u).
Proof. induction u; cbn [digits]; constructor; try assumption; reflexivity. Qed.

Lemma showPage_cons (p : positive) :
  exists d ds, showPage p = d :: ds /\ digit d /\ Forall digit ds.
Proof.
  unfold showPage. pose proof (digits_digit (Pos.to_uint p)) as Hall.
  pose proof (DecimalPos.Unsigned.to_uint_nonnil p) as Hnn.
  destruct (Pos.to_uint p) as [|u|u|u|u|u|u|u|u|u|u]; [contradiction|..];
    cbn [digits] in *; inversion Hall; subst; eauto.
Qed.

(** The singular form is recognized: for every page number the text
    "(Page N)" is one part of type citation whose pages field is N. *)
Theorem extractCitations_singular (p : positive) :
  extractCitations (formatCitation [p])
  = Some [mkPart type_citation (formatCitation [p]) (Some (showPage p))].
Proof.
  destruct (showPage_cons p) as (d & ds & Hshow & Hd & Hds).
  change (formatCitation [p]) with (lit "(Page " ++ showPage p ++ lit ")").
  rewrite Hshow. apply extractCitations_whole.
  - discriminate.
  - apply (exec_singular d ds Hd Hds).
Qed.

(** ** ChatPanel: sending, clearing, the transcript *)

Module ChatPanelFacts.

Import ChatPanel.
Import Samples.

Lemma trimStart_blank (s : Str) : blank s -> trimStart s = [].
Proof.
  induction 1 as [|c s Hc _ IH]; [reflexivity|].
  cbn [trimStart]. rewrite Hc. exact IH.
Qed.

Lemma trim_blank (s : Str) : blank s -> trim s = [].
Proof. intros H. unfold trim. rewrite trimStart_blank by exact H. reflexivity. Qed.

Lemma sendGuard_blank (st : State) : blank (inputValue st) -> sendGuard st = true.
Proof. intros H. unfold sendGuard. rewrite trim_blank by exact H. reflexivity. Qed.

Lemma sendGuard_open (st : State) :
  trim (inputValue st) <> [] -> isLoading st = false -> sendGuard st = false.
Proof.
  intros Hq Hl. unfold sendGuard. rewrite Hl.
  destruct (trim (inputValue st)); [contradiction | reflexivity].
Qed.

Lemma settled_role outcome now : role (settled outcome now) = assistant.
Proof. destruct outcome; reflexivity. Qed.

Lemma handleSend_open (p : Props) (now1 now2 : Str) (outcome : ChatOutcome)
    (st : State) :
  sendGuard st = false ->
  handleSend p now1 now2 outcome st
  = (mkState (messages st ++ [userMessage (inputValue st) now1;
                              settled outcome now2]) [] false,
     [sendMessage (inputValue st) (sessionId p) (documentId p)]).
Proof.
  intros Hg. unfold handleSend, handleSend_begin. rewrite Hg.
  unfold handleSend_settle. cbn [messages inputValue].
  rewrite <- app_assoc. destruct outcome; reflexivity.
Qed.

(** C2: submitting an empty or whitespace-only question calls
    sendMessage not at all and leaves the state of the panel, its
    transcript included, as it was. *)
Theorem handleSend_blank (p : Props) (now1 now2 : Str) (outcome : ChatOutcome)
    (st : State) :
  blank (inputValue st) ->
  handleSend_begin p now1 st = (st, None)
  /\ handleSend p now1 now2 outcome st = (st, [])
  /\ messages (fst (handleSend p now1 now2 outcome st)) = messages st.
Proof.
  intros H. apply sendGuard_blank in H.
  unfold handleSend, handleSend_begin. rewrite H. repeat split.
Qed.

Lemma handleSend_blank_witness :
  blank (inputValue threeSpaces)
  /\ handleSend props (lit "t1") (lit "t2")
       ChatRejected threeSpaces = (threeSpaces, []).
Proof.
  assert (H : blank (inputValue threeSpaces))
    by (repeat constructor).
  split; [exact H|].
  apply (handleSend_blank props
           (lit "t1") (lit "t2") ChatRejected threeSpaces H).
Defined.



(** Every handler but [clearChat] extends the transcript. *)
Lemma runSend_appends (p : Props) (now : Str) (w : Panel) :
  exists added, messages (state (runSend p now w)) = messages (state w) ++ added.
Proof.
  unfold runSend, handleSend_begin. destruct (sendGuard (state w)).
  - exists []. cbn [state]. rewrite app_nil_r. reflexivity.
  - eexists. cbn [state messages]. reflexivity.
Qed.

Lemma step_appends (p : Props) (e : Event) (w : Panel) :
  e <> ClickClear ->
  exists added, messages (state (step p e w)) = messages (state w) ++ added.
Proof.
  assert (Hsame : exists added : list Message,
             messages (state w) = messages (state w) ++ added)
    by (exists []; rewrite app_nil_r; reflexivity).
  intros Hne. destruct e as [now | enter shift now | v | i | | outcome now];
    cbn [step].
  - destruct (sendDisabled _); [exact Hsame | apply runSend_appends].
  - destruct (textareaDisabled _); [exact Hsame|].
    unfold handleKeyPress.
    destruct (enter && negb shift); [apply runSend_appends | exact Hsame].
  - destruct (textareaDisabled _); exact Hsame.
  - destruct (examplesVisible _); [|exact Hsame].
    destruct (exampleQuestions !! i); exact Hsame.
  - contradiction.
  - destruct (inflight w); [|exact Hsame].
    eexists. cbn [state handleSend_settle messages]. reflexivity.
Qed.

(** C7: clearChat empties the transcript; every other event of the
    panel, and every complete run of handleSend whatever the outcome of
    its call, leaves the existing entries in place and in order and only
    appends to them. *)
Theorem transcript_removed_only_by_clear :
  (forall st : State, messages (clearChat st) = [])
  /\ (forall (p : Props) (e : Event) (w : Panel),
        e <> ClickClear ->
        exists added,
          messages (state (step p e w)) = messages (state w) ++ added)
  /\ (forall (p : Props) (now1 now2 : Str) (outcome : ChatOutcome) (st : State),
        exists added,
          messages (fst (handleSend p now1 now2 outcome st))
          = messages st ++ added).
Proof.
  split; [reflexivity|]. split; [exact step_appends|].
  intros p now1 now2 outcome st.
  destruct (sendGuard st) eqn:Hg.
  - exists []. unfold handleSend, handleSend_begin. rewrite Hg.
    cbn [fst]. rewrite app_nil_r. reflexivity.
  - rewrite (handleSend_open p now1 now2 outcome st Hg).
    eexists. reflexivity.
Qed.

Lemma transcript_removed_only_by_clear_witness :
  Settle ChatRejected (lit "t1") <> ClickClear
  /\ exists added,
       messages (state (step props
                          (Settle ChatRejected (lit "t1")) waiting))
       = messages (state waiting) ++ added.
Proof.
  assert (H : Settle ChatRejected (lit "t1") <> ClickClear) by discriminate.
  split; [exact H|].
  exact (proj1 (proj2 transcript_removed_only_by_clear)
           props
           (Settle ChatRejected (lit "t1")) waiting H).
Defined.

Lemma doSend_spec (p : Props) (st : State) (s : Send) :
  asked s -> isLoading st = false ->
  doSend p st s = mkState (messages st ++ sendEntries s) [] false.
Proof.
  intros Hq Hl. unfold doSend.
  rewrite handleSend_open; [reflexivity|].
  apply sendGuard_open; [exact Hq | exact Hl].
Qed.

Lemma doSends_spec (p : Props) (ss : list Send) :
  forall st : State,
    Forall asked ss -> isLoading st = false ->
    messages (doSends p ss st) = messages st ++ concat (map sendEntries ss)
    /\ isLoading (doSends p ss st) = false.
Proof.
  induction ss as [|s ss IH]; intros st Hall Hl.
  - cbn. rewrite app_nil_r. split; [reflexivity | exact Hl].
  - inversion Hall as [|? ? Hs Hss]; subst.
    unfold doSends. cbn [foldl]. fold (doSends p ss (doSend p st s)).
    rewrite (doSend_spec p st s Hs Hl).
    destruct (IH (mkState (messages st ++ sendEntries s) [] false) Hss eq_refl)
      as [Hm Hl'].
    split; [|exact Hl'].
    rewrite Hm. cbn [messages map concat]. rewrite <- app_assoc. reflexivity.
Qed.

Lemma alternates_sendEntries (ss : list Send) :
  alternates user (concat (map sendEntries ss)) = true.
Proof.
  induction ss as [|s ss IH]; [reflexivity|].
  cbn [map concat sendEntries app alternates userMessage role].
  rewrite settled_role. exact IH.
Qed.

Lemma length_sendEntries (ss : list Send) :
  length (concat (map sendEntries ss)) = 2 * length ss.
Proof.
  induction ss as [|s ss IH]; [reflexivity|].
  cbn [map concat sendEntries app length]. rewrite IH. lia.
Qed.

Lemma truthy_opt_not_None (v : option Str) : truthy_opt v = true -> v <> None.
Proof. destruct v; [discriminate | discriminate]. Qed.

Lemma runSend_calls (p : Props) (now : Str) (w : Panel) :
  documentId p <> None ->
  Forall carriesDocument (calls w) ->
  Forall carriesDocument (calls (runSend p now w)).
Proof.
  intros Hdoc Hall. unfold runSend, handleSend_begin.
  destruct (sendGuard (state w)); cbn [calls]; [exact Hall|].
  apply Forall_app. split; [exact Hall|].
  constructor; [exact Hdoc | constructor].
Qed.

Lemma step_calls (p : Props) (e : Event) (w : Panel) :
  Forall carriesDocument (calls w) ->
  Forall carriesDocument (calls (step p e w)).
Proof.
  intros Hall.
  destruct e as [now | enter shift now | v | i | | outcome now]; cbn [step].
  - destruct (sendDisabled (render p (state w))) eqn:Hd; [exact Hall|].
    apply runSend_calls; [|exact Hall].
    cbn [render sendDisabled] in Hd.
    apply truthy_opt_not_None.
    destruct (truthy_opt (documentId p)); [reflexivity|].
    rewrite orb_true_r in Hd. discriminate.
  - destruct (textareaDisabled (render p (state w))) eqn:Hd; [exact Hall|].
    unfold handleKeyPress. destruct (enter && negb shift); [|exact Hall].
    apply runSend_calls; [|exact Hall].
    cbn [render textareaDisabled] in Hd.
    apply truthy_opt_not_None.
    destruct (truthy_opt (documentId p)); [reflexivity | discriminate].
  - destruct (textareaDisabled _); exact Hall.
  - destruct (examplesVisible _); [|exact Hall].
    destruct (exampleQuestions !! i); exact Hall.
  - destruct (clearVisible _); exact Hall.
  - destruct (inflight w); exact Hall.
Qed.

Lemma run_calls (es : list (Props * Event)) :
  forall w : Panel,
    Forall carriesDocument (calls w) ->
    Forall carriesDocument (calls (run es w)).
Proof.
  induction es as [|[p e] es IH]; intros w Hall; [exact Hall|].
  unfold run. cbn [foldl]. apply IH, step_calls, Hall.
Qed.

(** While a call is awaited the controls are disabled and the example
    questions hidden: no event but the clearing of the chat and the
    settling of the call changes the panel. *)
Lemma step_while_loading (p : Props) (e : Event) (w : Panel) :
  isLoading (state w) = true ->
  messages (state w) <> [] ->
  userInput e ->
  step p e w = w.
Proof.
  intros Hl Hm He.
  destruct e as [now | enter shift now | v | i | | outcome now];
    cbn [step render sendDisabled textareaDisabled examplesVisible];
    try contradiction.
  - rewrite Hl, orb_true_r. reflexivity.
  - rewrite Hl, orb_true_r. reflexivity.
  - rewrite Hl, orb_true_r. reflexivity.
  - destruct (messages (state w)); [contradiction | reflexivity].
Qed.

Lemma run_while_loading (es : list (Props * Event)) (w : Panel) :
  isLoading (state w) = true ->
  messages (state w) <> [] ->
  Forall (fun pe => userInput (snd pe)) es ->
  run es w = w.
Proof.
  intros Hl Hm Hall. induction Hall as [|[p e] es He _ IH]; [reflexivity|].
  unfold run. cbn [foldl fst snd].
  rewrite (step_while_loading p e w Hl Hm He). exact IH.
Qed.

(** A click on the enabled Send button, any user input while the call is
    awaited, and the settling of the call: the panel ends in the state
    [handleSend] computes, with one more call of [sendMessage]. *)
Lemma click_then_settle (p p' : Props) (now1 now2 : Str) (outcome : ChatOutcome)
    (es : list (Props * Event)) (w : Panel) :
  sendDisabled (render p (state w)) = false ->
  Forall (fun pe => userInput (snd pe)) es ->
  let w' := run ((p, ClickSend now1) :: es ++ [(p', Settle outcome now2)]) w in
  state w' = fst (handleSend p now1 now2 outcome (state w))
  /\ calls w' = calls w ++ snd (handleSend p now1 now2 outcome (state w)).
Proof.
  intros Hd Hall.
  assert (Hg : sendGuard (state w) = false).
  { cbn [render sendDisabled] in Hd. unfold sendGuard.
    destruct (truthy (trim (inputValue (state w)))); [|discriminate].
    destruct (isLoading (state w)); [|reflexivity].
    rewrite orb_true_r in Hd. discriminate. }
  cbn zeta. unfold run. cbn [foldl fst snd step]. rewrite Hd.
  unfold runSend, handleSend. unfold handleSend_begin. rewrite Hg.
  rewrite foldl_app. cbn [foldl fst snd].
  fold (run es (mkPanel
                  (mkState (messages (state w) ++ [userMessage (inputValue (state w)) now1])
                     [] true)
                  (Some (sendMessage (inputValue (state w)) (sessionId p) (documentId p)))
                  (calls w ++ [sendMessage (inputValue (state w)) (sessionId p)
                                 (documentId p)]))).
  rewrite run_while_loading; [| reflexivity | | exact Hall].
  - split; reflexivity.
  - cbn [state messages]. intros E. apply app_eq_nil in E as [_ E]. discriminate.
Qed.

End ChatPanelFacts.

(** ** App and UploadPanel: a failed upload, no document *)

Module AppFacts.

Import App.
Import Samples.

Lemma renderChatArea_None (st : State) :
  documentId st = None -> renderChatArea st = NoDocumentLoaded.
Proof. intros H. unfold renderChatArea. rewrite H. reflexivity. Qed.

(** C5: handleUploadError resets documentId and documentInfo to null;
    a drop whose upload is rejected ends with both null, whatever
    document was loaded before, with the upload panel's uploadedFile
    null, with the error message set and with no chat panel rendered;
    the timer of the finally block changes none of this. *)
Theorem upload_failure_resets (file : File) (files : list File)
    (progress : list nat) (detail : option Str) (w : State * UploadState) :
  (forall (msg : Str) (st : State),
      documentId (handleUploadError msg st) = None
      /\ documentInfo (handleUploadError msg st) = None)
  /\ (let w' := onDrop (file :: files) progress (UploadRejected detail) w in
      documentId (fst w') = None
      /\ documentInfo (fst w') = None
      /\ uploadedFile (snd w') = None
      /\ error (fst w') = Some (uploadErrorMessage detail)
      /\ renderChatArea (fst w') = NoDocumentLoaded
      /\ documentId (fst (onDropTimer w')) = None
      /\ documentInfo (fst (onDropTimer w')) = None
      /\ uploadedFile (snd (onDropTimer w')) = None).
Proof.
  split; [intros msg st; split; reflexivity|].
  cbn. repeat split.
Qed.

Lemma step_keeps_None (e : Event) (w : State * UploadState) :
  isSuccess e = false ->
  documentId (fst w) = None ->
  documentId (fst (step e w)) = None.
Proof.
  intros Hs Hd. destruct e as [fs progress outcome|]; cbn [step].
  - destruct fs as [|f fs]; [exact Hd|].
    destruct outcome as [result|detail]; [discriminate Hs | reflexivity].
  - exact Hd.
Qed.

Lemma run_keeps_None (es : list Event) :
  forall w : State * UploadState,
    forallb (fun e => negb (isSuccess e)) es = true ->
    documentId (fst w) = None ->
    documentId (fst (run es w)) = None.
Proof.
  induction es as [|e es IH]; intros w Hall Hd; [exact Hd|].
  cbn [forallb] in Hall. apply andb_true_iff in Hall as [He Hes].
  unfold run. cbn [foldl]. apply IH; [exact Hes|].
  apply step_keeps_None; [|exact Hd].
  apply negb_true_iff. exact He.
Qed.

End AppFacts.

(** C10: with documentId null the panel renders its textarea and its Send
    button disabled; as long as no upload has succeeded App renders the
    placeholder and no chat panel; and whatever the properties of a
    mounted panel and whatever the events delivered to it, every request
    it hands to sendMessage carries a document id. *)
Theorem no_chat_without_document :
  (forall (p : ChatPanel.Props) (st : ChatPanel.State),
      ChatPanel.documentId p = None ->
      ChatPanel.textareaDisabled (ChatPanel.render p st) = true
      /\ ChatPanel.sendDisabled (ChatPanel.render p st) = true)
  /\ (forall (sid : Str) (es : list App.Event),
        forallb (fun e => negb (App.isSuccess e)) es = true ->
        App.renderChatArea
          (fst (App.run es (App.initialState sid, App.initialUploadState)))
        = App.NoDocumentLoaded)
  /\ (forall es : list (ChatPanel.Props * ChatPanel.Event),
        Forall (fun r => document_id r <> None)
          (ChatPanel.calls (ChatPanel.run es ChatPanel.mount))).
Proof.
  split; [|split].
  - intros p st H. unfold ChatPanel.render. rewrite H. cbn.
    split; [reflexivity | rewrite orb_true_r; reflexivity].
  - intros sid es Hall. apply AppFacts.renderChatArea_None.
    apply AppFacts.run_keeps_None; [exact Hall | reflexivity].
  - intros es. apply ChatPanelFacts.run_calls. constructor.
Qed.

Lemma no_chat_without_document_witness :
  ChatPanel.sendDisabled
    (ChatPanel.render Samples.noDocument Samples.asking)
  = true
  /\ App.renderChatArea
       (fst (App.run [App.Drop [App.mkFile (lit "a.pdf")] [10; 60]
                        (UploadRejected None); App.Timer]
               (App.initialState (lit "s1"), App.initialUploadState)))
     = App.NoDocumentLoaded.
Proof.
  split.
  - apply (proj1 no_chat_without_document
             Samples.noDocument Samples.asking).
    reflexivity.
  - apply (proj1 (proj2 no_chat_without_document)). reflexivity.
Defined.

(** ** Conversation memory: first in, first out, by exchange *)

Module MemoryFacts.

Import ConversationMemory.
Import Samples.

Lemma lastn_length {A : Type} (n : nat) (l : list A) : length (lastn n l) <= n.
Proof. unfold lastn. rewrite length_drop. lia. Qed.

Lemma lastn_app {A : Type} (n : nat) (l k : list A) :
  lastn n (lastn n l ++ k) = lastn n (l ++ k).
Proof.
  unfold lastn. rewrite !length_app, length_drop.
  destruct (le_lt_dec (length l) n) as [Hle|Hgt].
  - replace (length l - n) with 0 by lia. cbn [drop].
    replace (length l - 0) with (length l) by lia. reflexivity.
  - replace (length l - (length l - n) + length k - n) with (length k) by lia.
    destruct (le_lt_dec (length k) n) as [Hk|Hk].
    + rewrite drop_app_le by (rewrite length_drop; lia).
      rewrite drop_app_le by lia.
      rewrite drop_drop. f_equal. f_equal. lia.
    + rewrite drop_app_ge by (rewrite length_drop; lia).
      rewrite drop_app_ge by lia.
      rewrite length_drop. f_equal. lia.
Qed.

Lemma transcript_app (xs ys : list Exchange) :
  transcript (xs ++ ys) = transcript xs ++ transcript ys.
Proof. unfold transcript. rewrite map_app, concat_app. reflexivity. Qed.

Lemma transcript_length (xs : list Exchange) :
  length (transcript xs) = 2 * length xs.
Proof.
  induction xs as [|x xs IH]; [reflexivity|].
  change (transcript (x :: xs)) with (entries x ++ transcript xs).
  rewrite length_app, IH. cbn. lia.
Qed.

Lemma get_append (m : Memory) (sid : Str) (r : Role) (t now : Str) :
  get (append m sid r t now) sid
  = evict (capacity m) (get m sid ++ [mkEntry r t now]).
Proof. unfold get at 1, append. cbn [sessions]. rewrite lookup_insert_eq. reflexivity. Qed.

(** [get] never returns more than 2N entries. *)
Lemma append_bound (m : Memory) (sid : Str) (r : Role) (t now : Str) :
  length (get m sid) <= 2 * capacity m ->
  length (get (append m sid r t now) sid) <= 2 * capacity m.
Proof.
  intros H. rewrite get_append. unfold evict.
  destruct (2 * capacity m <? length (get m sid ++ [mkEntry r t now])) eqn:E.
  - rewrite length_drop, length_app. cbn [length]. lia.
  - apply Nat.ltb_ge in E. exact E.
Qed.

Lemma appendExchange_get (m : Memory) (sid : Str) (old : list Exchange)
    (x : Exchange) :
  get m sid = transcript old ->
  length old <= capacity m ->
  get (appendExchange sid m x) sid
  = transcript (lastn (capacity m) (old ++ [x])).
Proof.
  intros Hget Hlen. unfold appendExchange.
  rewrite get_append. change (capacity (append _ _ _ _ _)) with (capacity m).
  rewrite get_append, Hget. unfold evict at 2.
  rewrite length_app, transcript_length. cbn [length].
  unfold lastn. rewrite length_app. cbn [length].
  destruct (2 * capacity m <? 2 * length old + 1) eqn:E1.
  - apply Nat.ltb_lt in E1.
    destruct old as [|o old'].
    + assert (Hc : capacity m = 0) by (cbn in E1; lia). rewrite Hc. reflexivity.
    + cbn [length] in *. assert (Hc : capacity m = S (length old')) by lia.
      rewrite Hc.
      replace (S (length old') + 1 - S (length old')) with 1 by lia.
      change (drop 2 (transcript (o :: old') ++ _))
        with (transcript old' ++ [mkEntry user (ex_question x) (ex_asked x)]).
      unfold evict. rewrite !length_app, transcript_length. cbn [length].
      replace (2 * S (length old') <? 2 * length old' + 1 + 1) with false
        by (symmetry; apply Nat.ltb_ge; lia).
      cbn [app drop]. rewrite drop_0, transcript_app, <- app_assoc. reflexivity.
  - apply Nat.ltb_ge in E1.
    unfold evict. rewrite !length_app, transcript_length. cbn [length].
    replace (2 * capacity m <? 2 * length old + 1 + 1) with false
      by (symmetry; apply Nat.ltb_ge; lia).
    replace (length old + 1 - capacity m) with 0 by lia.
    rewrite drop_0, transcript_app, <- app_assoc. reflexivity.
Qed.

Lemma capacity_appendExchanges (sid : Str) (xs : list Exchange) :
  forall m : Memory, capacity (appendExchanges sid xs m) = capacity m.
Proof.
  induction xs as [|x xs IH]; intros m; [reflexivity|].
  unfold appendExchanges. cbn [foldl]. apply (IH (appendExchange sid m x)).
Qed.

Lemma appendExchanges_get (sid : Str) (xs : list Exchange) :
  forall (m : Memory) (old : list Exchange),
    get m sid = transcript old ->
    length old <= capacity m ->
    get (appendExchanges sid xs m) sid
    = transcript (lastn (capacity m) (old ++ xs)).
Proof.
  induction xs as [|x xs IH]; intros m old Hget Hlen.
  - cbn [appendExchanges foldl]. rewrite app_nil_r, Hget.
    unfold lastn. replace (length old - capacity m) with 0 by lia.
    reflexivity.
  - unfold appendExchanges. cbn [foldl].
    fold (appendExchanges sid xs (appendExchange sid m x)).
    rewrite (IH (appendExchange sid m x) (lastn (capacity m) (old ++ [x]))).
    + change (capacity (appendExchange sid m x)) with (capacity m).
      rewrite lastn_app, <- app_assoc. reflexivity.
    + apply appendExchange_get; assumption.
    + apply lastn_length.
Qed.

(** C3: in a session that holds whole exchanges, at most N of them, and
    in particular in a fresh one, appending N+1 exchanges leaves
    exactly the N most recent ones, in order and oldest first: the first
    of the appended exchanges is gone together with everything older;
    no more than 2N entries are returned. *)
Theorem memory_fifo (m : Memory) (sid : Str) (old xs : list Exchange) :
  get m sid = transcript old ->
  length old <= capacity m ->
  length xs = capacity m + 1 ->
  get (appendExchanges sid xs m) sid = transcript (drop 1 xs)
  /\ length (drop 1 xs) = capacity m
  /\ length (get (appendExchanges sid xs m) sid) <= 2 * capacity m.
Proof.
  intros Hget Hlen Hxs.
  assert (Hlast : lastn (capacity m) (old ++ xs) = drop 1 xs).
  { unfold lastn. rewrite length_app, Hxs.
    rewrite drop_app_ge by lia. f_equal. lia. }
  rewrite (appendExchanges_get sid xs m old Hget Hlen), Hlast.
  split; [reflexivity|].
  split; [rewrite length_drop; lia|].
  rewrite transcript_length, length_drop. lia.
Qed.

Lemma memory_fifo_witness :
  get (appendExchanges (lit "s1") [ex "q1" "a1"; ex "q2" "a2"; ex "q3" "a3"]
         (empty 2)) (lit "s1")
  = transcript [ex "q2" "a2"; ex "q3" "a3"].
Proof.
  apply (memory_fifo (empty 2) (lit "s1") []
           [ex "q1" "a1"; ex "q2" "a2"; ex "q3" "a3"]).
  - reflexivity.
  - cbn. lia.
  - reflexivity.
Defined.

End MemoryFacts.

(** ** The synthesized citation *)

Module CitationFacts.

Import Samples.

Local Instance Pos_le_trans : Transitive Pos.le.
Proof. intros x y z. apply Pos.le_trans. Qed.

Local Instance Pos_le_antisym : AntiSymm (=) Pos.le.
Proof. intros x y. apply Pos.le_antisym. Qed.

(** Sorting the distinct elements of a list depends on its set of
    elements only. *)
Lemma sorted_distinct_unique (l k : list positive) :
  (forall p, p ∈ l <-> p ∈ k) ->
  NoDup k -> Sorted Pos.le k ->
  merge_sort Pos.le (remove_dups l) = k.
Proof.
  intros Hsame Hnd Hsorted.
  apply (Sorted_unique Pos.le).
  - apply Sorted_merge_sort. apply _.
  - exact Hsorted.
  - rewrite merge_sort_Permutation.
    apply NoDup_Permutation; [apply NoDup_remove_dups | exact Hnd |].
    intros p. rewrite elem_of_remove_dups. apply Hsame.
Qed.

(** C4: for a context whose chunks carry the pages 9, 9 and 12, in any
    order and however spread over the chunks, and a generated text in
    which the recognizer finds no citation, validate_and_fix returns the
    text followed by "(Pages 9 and 12)". *)
Theorem validate_and_fix_pages_9_12 (citedPages : Str -> list positive)
    (generated_text : Str) (ctx : RetrievedContext) :
  contextPages ctx ≡ₚ [9; 9; 12]%positive ->
  citedPages generated_text = [] ->
  validate_and_fix citedPages generated_text ctx
  = generated_text ++ lit "(Pages 9 and 12)".
Proof.
  intros Hpages Hnone. unfold validate_and_fix.
  destruct ctx as [|c ctx'].
  - apply Permutation_nil_l in Hpages. discriminate Hpages.
  - rewrite Hnone. cbn [existsb]. f_equal.
    unfold distinctSortedPages.
    rewrite (sorted_distinct_unique _ [9; 12]%positive).
    + reflexivity.
    + intros p. rewrite Hpages, !elem_of_cons, elem_of_nil. tauto.
    + constructor; [rewrite list_elem_of_singleton; discriminate|].
      constructor; [apply not_elem_of_nil | constructor].
    + repeat constructor. discriminate.
Qed.

Lemma validate_and_fix_pages_9_12_witness :
  frontEndCitedPages (lit "Take 15 mg once daily.") = []
  /\ validate_and_fix frontEndCitedPages (lit "Take 15 mg once daily.") twoChunks
     = lit "Take 15 mg once daily.(Pages 9 and 12)".
Proof.
  assert (H : frontEndCitedPages (lit "Take 15 mg once daily.") = [])
    by (vm_compute; reflexivity).
  split; [exact H|].
  apply (validate_and_fix_pages_9_12 frontEndCitedPages
           (lit "Take 15 mg once daily.") twoChunks); [|exact H].
  change (contextPages twoChunks) with [12; 9; 9]%positive.
  apply Permutation_cons_append with (l := [9; 9]%positive) (x := 12%positive).
Defined.

End CitationFacts.

(** ** highlightContent: markup is only inserted *)

Module HighlightFacts.

Import Highlight.

Lemma matchAt_suffix (alts : list regex) (s rest : Str) :
  matchAt alts s = Some rest -> rest `suffix_of` s.
Proof.
  induction alts as [|r alts IH]; cbn [matchAt]; [discriminate|].
  destruct (rmatch r s None _) as [rest'|] eqn:E; [|exact IH].
  intros H. injection H as ->.
  apply rmatch_suffix in E as (s' & cap' & Hsuf & E).
  injection E as ->. exact Hsuf.
Qed.

(** The loop ends within [length s + 1] steps, and its output contains
    the input as a subsequence. *)
Lemma replaceLoop_sublist (alts : list regex) (before after : Str) :
  forall (fuel : nat) (s : Str),
    length s < fuel ->
    exists out,
      replaceLoop fuel alts before after s = Some out /\ s `sublist_of` out.
Proof.
  induction fuel as [|fuel IH]; intros s Hfuel; [lia|].
  cbn [replaceLoop]. destruct (matchAt alts s) as [rest|] eqn:E.
  - apply matchAt_suffix in E.
    destruct (length rest <? length s) eqn:Hlt.
    + apply Nat.ltb_lt in Hlt.
      destruct (IH rest) as (out & -> & Hsub); [lia|].
      eexists. split; [reflexivity|].
      rewrite <- (suffix_take_length s rest E) at 1.
      apply sublist_inserts_l, sublist_app; [reflexivity|].
      apply sublist_inserts_l, Hsub.
    + destruct s as [|c s'].
      * eexists. split; [reflexivity | apply sublist_nil_l].
      * destruct (IH s') as (out & -> & Hsub); [cbn in Hfuel; lia|].
        eexists. split; [reflexivity|].
        apply sublist_inserts_l, sublist_inserts_l, sublist_skip, Hsub.
  - destruct s as [|c s'].
    + eexists. split; [reflexivity | apply sublist_nil_l].
    + destruct (IH s') as (out & -> & Hsub); [cbn in Hfuel; lia|].
      eexists. split; [reflexivity | apply sublist_skip, Hsub].
Qed.

Lemma replaceAll_sublist (alts : list regex) (before after : Str) (text : Str) :
  exists out, replaceAll alts before after text = Some out
              /\ text `sublist_of` out.
Proof. apply replaceLoop_sublist. lia. Qed.

(** Where no alternative matches, the loop copies its input. *)
Lemma replaceLoop_plain (alts : list regex) (before after : Str) :
  forall (fuel : nat) (s : Str),
    length s < fuel ->
    hasMatch alts s = false ->
    replaceLoop fuel alts before after s = Some s.
Proof.
  induction fuel as [|fuel IH]; intros s Hfuel Hno; [lia|].
  cbn [replaceLoop]. destruct s as [|c s']; cbn [hasMatch] in Hno.
  - destruct (matchAt alts []); [discriminate | reflexivity].
  - destruct (matchAt alts (c :: s')); [discriminate|].
    rewrite IH; [reflexivity | cbn in Hfuel; lia | exact Hno].
Qed.

(** X1: highlightContent returns a result for every text, and the text is
    a subsequence of that result: the three replacements insert the span
    tags around the matches and neither drop nor reorder a code unit. *)
Theorem highlightContent_inserts_only (text : Str) :
  exists html,
    highlightContent text = Some html /\ text `sublist_of` html.
Proof.
  unfold highlightContent.
  destruct (replaceAll_sublist dosageTerms (spanOpen "highlight-dosage")
              spanClose text) as (t1 & -> & H1).
  destruct (replaceAll_sublist warningTerms (spanOpen "highlight-warning")
              spanClose t1) as (t2 & -> & H2).
  destruct (replaceAll_sublist contraindicationTerms
              (spanOpen "highlight-contraindication") spanClose t2)
    as (t3 & -> & H3).
  exists t3. split; [reflexivity|].
  etrans; [exact H1|]. etrans; [exact H2 | exact H3].
Qed.

(** X2: a text in which none of the three patterns has a match is
    returned as it is; nothing in it is escaped, so markup contained in
    an answer reaches the page unchanged. *)
Theorem highlightContent_plain (text : Str) :
  plain text = true -> highlightContent text = Some text.
Proof.
  unfold plain. intros H.
  apply andb_true_iff in H as [H H3]. apply andb_true_iff in H as [H1 H2].
  apply negb_true_iff in H1, H2, H3.
  unfold highlightContent, replaceAll.
  rewrite replaceLoop_plain by (lia || exact H1).
  rewrite replaceLoop_plain by (lia || exact H2).
  apply replaceLoop_plain; [lia | exact H3].
Qed.

Lemma highlightContent_plain_witness :
  plain (lit "<img src=x onerror=alert(1)>") = true
  /\ highlightContent (lit "<img src=x onerror=alert(1)>")
     = Some (lit "<img src=x onerror=alert(1)>").
Proof.
  assert (H : plain (lit "<img src=x onerror=alert(1)>") = true)
    by (vm_compute; reflexivity).
  split; [exact H | apply (highlightContent_plain _ H)].
Defined.

End HighlightFacts.

(** ** extractCitations: the shape of the parts *)

Module PartsFacts.

Import Parts.

Lemma canonicalize_inv (c k : N) :
  (k < 65)%N -> canonicalize c = k -> c = k.
Proof.
  unfold canonicalize. intros Hk H.
  destruct ((97 <=? c) && (c <=? 122))%N eqn:Hr; [|exact H].
  apply andb_true_iff in Hr as [H1 H2]. apply N.leb_le in H1, H2. lia.
Qed.

Lemma rmatch_seq_suffix {A : Type} (r1 r2 : regex) (s : Str) (cap : option Str)
    (k : Str -> option Str -> option A) (x : A) :
  rmatch (Seq r1 r2) s cap k = Some x ->
  exists s1 c1, s1 `suffix_of` s /\ rmatch r2 s1 c1 k = Some x.
Proof. cbn [rmatch]. apply rmatch_suffix. Qed.

Lemma take_length_sub {A : Type} (l k : list A) :
  take (length (l ++ k) - length k) (l ++ k) = l.
Proof.
  rewrite length_app.
  replace (length l + length k - length k) with (length l) by lia.
  apply take_app_length.
Qed.

(** What a match of the citation pattern looks like. *)
Lemma rmatch_citation_shape (s rest : Str) (cap : option Str) :
  rmatch citationRegex s None (fun rest cap => Some (rest, cap))
  = Some (rest, cap) ->
  exists before pg,
    take (length s - length rest) s = cu "(" :: before ++ pg ++ [cu ")"]
    /\ cap = Some pg.
Proof.
  unfold citationRegex. intros H.
  destruct s as [|c0 s1]; [discriminate H|].
  rewrite rmatch_chr_seq in H.
  destruct (canonicalize c0 =? canonicalize (cu "("))%N eqn:E0; [|discriminate].
  apply N.eqb_eq in E0. apply (canonicalize_inv c0 40) in E0; [|lia]. subst c0.
  apply rmatch_seq_suffix in H as (s2 & c2 & Hs2 & H).
  apply rmatch_seq_suffix in H as (s3 & c3 & Hs3 & H).
  apply rmatch_seq_suffix in H as (s4 & c4 & Hs4 & H).
  apply rmatch_seq_suffix in H as (s5 & c5 & Hs5 & H).
  apply rmatch_seq_suffix in H as (s6 & c6 & Hs6 & H).
  rewrite rmatch_group_seq in H.
  apply rmatch_suffix in H as (s7 & c7 & Hs7 & H).
  destruct s7 as [|c s8]; [discriminate H|]. cbn [rmatch] in H.
  destruct (canonicalize c =? canonicalize (cu ")"))%N eqn:E; [|discriminate].
  apply N.eqb_eq in E. apply (canonicalize_inv c 41) in E; [|lia]. subst c.
  injection H as <- <-.
  assert (Hs61 : s6 `suffix_of` s1)
    by (etrans; [exact Hs6|]; etrans; [exact Hs5|]; etrans; [exact Hs4|];
        etrans; [exact Hs3 | exact Hs2]).
  destruct Hs61 as [before ->]. destruct Hs7 as [pg ->].
  exists before, pg. split.
  - change (cu "(") with 40%N.
    replace (40%N :: before ++ pg ++ 41%N :: s8)
      with ((40%N :: before ++ pg ++ [41%N]) ++ s8)
      by (cbn [app]; rewrite <- !app_assoc; reflexivity).
    apply take_length_sub.
  - f_equal. apply (take_length_sub pg (41%N :: s8)).
Qed.

Lemma exec_from_shape (s : Str) :
  forall (i : nat) (m : MatchResult),
    exec_from citationRegex s i = Some m ->
    exists before pg,
      m0 m = cu "(" :: before ++ pg ++ [cu ")"] /\ m1 m = Some pg.
Proof.
  induction s as [|ch s IH]; intros i m H; cbn [exec_from] in H.
  - destruct (rmatch citationRegex [] None _) as [[rest cap]|] eqn:E;
      [|discriminate].
    apply rmatch_citation_shape in E. injection H as <-. exact E.
  - destruct (rmatch citationRegex (ch :: s) None _) as [[rest cap]|] eqn:E.
    + apply rmatch_citation_shape in E. injection H as <-. exact E.
    + apply IH in H. exact H.
Qed.

Lemma exec_shape (text : Str) (lastIndex last' : nat) (m : MatchResult) :
  exec citationRegex text lastIndex = (Some m, last') ->
  exists before pg,
    m0 m = cu "(" :: before ++ pg ++ [cu ")"] /\ m1 m = Some pg.
Proof.
  unfold exec. destruct (_ <? _); [discriminate|].
  destruct (exec_from citationRegex _ _) as [m'|] eqn:E; [|discriminate].
  intros H. injection H as -> _. apply exec_from_shape in E. exact E.
Qed.

Lemma slice_nonempty (text : Str) (from to : nat) :
  from < to -> to <= length text -> slice text from to <> [].
Proof.
  intros H1 H2 E. apply (f_equal length) in E.
  unfold slice in E. rewrite length_take, length_drop in E. cbn in E. lia.
Qed.

Lemma extractLoop_wellFormed (text : Str) :
  forall (fuel lastIndex : nat) (parts : list Part) (last' : nat)
         (parts' : list Part),
    Forall wellFormed parts ->
    extractLoop fuel text lastIndex lastIndex parts = Some (last', parts') ->
    Forall wellFormed parts'.
Proof.
  induction fuel as [|fuel IH]; intros lastIndex parts last' parts' Hwf H;
    [discriminate|].
  rewrite extractLoop_S in H.
  destruct (exec citationRegex text lastIndex) as [[m|] reLast'] eqn:E.
  - pose proof (exec_shape _ _ _ _ E) as (before & pg & Hm0 & Hm1).
    apply (exec_spec _ citationRegex_consuming) in E
      as (Hidx & -> & Hle' & Hpos & _).
    apply IH in H; [exact H|].
    apply Forall_app. split.
    + destruct (lastIndex <? index m) eqn:Hlt; [|exact Hwf].
      apply Nat.ltb_lt in Hlt. apply Forall_app. split; [exact Hwf|].
      constructor; [|constructor]. split; [|reflexivity].
      cbn [content]. apply slice_nonempty; lia.
    + constructor; [|constructor]. split.
      * cbn [content]. rewrite Hm0. discriminate.
      * cbn [type content pages]. exists before, pg. split; assumption.
  - injection H as <- <-. exact Hwf.
Qed.

(** X3: for a non-empty text every part returned by extractCitations is
    well formed: no part has empty content; a citation part starts with
    the opening and ends with the closing parenthesis and its pages field
    holds what stands right before the closing parenthesis; a text part
    has no pages field. *)
Theorem extractCitations_wellFormed (text : Str) :
  text <> [] ->
  exists parts,
    extractCitations text = Some parts /\ Forall wellFormed parts.
Proof.
  intros Hne. unfold extractCitations.
  destruct (extractLoop_spec text (S (length text)) 0 [])
    as (last' & parts' & Hrun & Hle & _ & _); [lia | lia | reflexivity |].
  rewrite Hrun. eexists. split; [reflexivity|].
  apply extractLoop_wellFormed in Hrun; [|constructor].
  assert (Hall : Forall wellFormed
            (if last' <? length text
             then parts' ++ [mkPart type_text (slice_from text last') None]
             else parts')).
  { destruct (last' <? length text) eqn:Hlt; [|exact Hrun].
    apply Nat.ltb_lt in Hlt. apply Forall_app. split; [exact Hrun|].
    constructor; [|constructor]. split; [|reflexivity].
    cbn [content]. unfold slice_from. intros E.
    apply (f_equal length) in E. rewrite length_drop in E. cbn in E. lia. }
  destruct (0 <? length _); [exact Hall|].
  constructor; [|constructor]. split; [exact Hne | reflexivity].
Qed.

Lemma extractCitations_wellFormed_witness :
  exists parts,
    extractCitations (lit "Take 15 mg (Page 9, 12 and 15).") = Some parts
    /\ Forall wellFormed parts.
Proof.
  apply (extractCitations_wellFormed (lit "Take 15 mg (Page 9, 12 and 15).")).
  discriminate.
Defined.

Lemma rmatch_chr_canon {A : Type} (c ch : N) (r : regex) (s : Str)
    (cap : option Str) (k : Str -> option Str -> option A) :
  canonicalize ch = canonicalize c ->
  rmatch (Seq (Chr c) r) (ch :: s) cap k = rmatch r s cap k.
Proof. intros H. rewrite rmatch_chr_seq, H, N.eqb_refl. reflexivity. Qed.

Lemma repeat_space_greedy {A : Type} (k : Str -> option Str -> option A) (x : A)
    (rest : Str) (cap : option Str) (ws : Str) :
  blank ws ->
  match rest with c :: _ => isWhiteSpace c = false | [] => True end ->
  k rest cap = Some x ->
  forall n, length ws <= n ->
    repeatMatcher (rmatch Space) k n (ws ++ rest) cap = Some x.
Proof.
  intros Hws Hrest Hk. induction Hws as [|c ws Hc _ IH]; intros n Hn.
  - cbn [app]. destruct n as [|n]; [exact Hk|].
    cbn [repeatMatcher rmatch]. destruct rest as [|c rest']; [exact Hk|].
    rewrite Hrest. exact Hk.
  - destruct n as [|n]; [cbn in Hn; lia|].
    cbn [repeatMatcher rmatch app]. rewrite Hc.
    replace (length (ws ++ rest) <? length (c :: ws ++ rest)) with true
      by (symmetry; apply Nat.ltb_lt; cbn; lia).
    rewrite IH by (cbn in Hn; lia). reflexivity.
Qed.

Lemma plus_space_greedy {A : Type} (r : regex) (sp : N) (ws : Str) (c : N)
    (s : Str) (cap : option Str) (k : Str -> option Str -> option A) (x : A) :
  isWhiteSpace sp = true -> blank ws -> isWhiteSpace c = false ->
  rmatch r (c :: s) cap k = Some x ->
  rmatch (Seq (Plus Space) r) (sp :: ws ++ c :: s) cap k = Some x.
Proof.
  intros Hsp Hws Hc Hr. cbn [rmatch Plus]. rewrite Hsp.
  apply repeat_space_greedy; [exact Hws | exact Hc | exact Hr|].
  rewrite length_app. lia.
Qed.

Lemma rmatch_group_pages (d : N) (ds : Str) (cap : option Str) :
  digit d -> Forall digit ds ->
  rmatch (Seq (Group pageNumbers) (Chr (cu ")"))) (d :: ds ++ [cu ")"]) cap
    (fun rest cap => Some (rest, cap))
  = Some ([], Some (d :: ds)).
Proof.
  intros Hd Hds. rewrite rmatch_group_seq.
  apply pageNumbers_greedy; [exact Hd | exact Hds |].
  cbn [rmatch]. rewrite N.eqb_refl. do 3 f_equal.
  apply (take_length_sub (d :: ds) [cu ")"]).
Qed.

(** A text the pattern matches from its first to its last code unit. *)
Lemma exec_whole (text : Str) (cap : option Str) :
  text <> [] ->
  rmatch citationRegex text None (fun rest cap => Some (rest, cap))
  = Some ([], cap) ->
  exec citationRegex text 0 = (Some (mkMatch 0 text cap), length text).
Proof.
  intros Hne Hm. unfold exec.
  change (length text <? 0) with false. cbv iota. rewrite drop_0.
  destruct text as [|c t]; [contradiction|].
  cbn [exec_from]. rewrite Hm. cbn [length index m0 Nat.add].
  rewrite Nat.sub_0_r.
  change (S (length t)) with (length (c :: t)). rewrite firstn_all.
  reflexivity.
Qed.

(** The citation pattern ignores case and accepts any white space
    after the word: an opening parenthesis, "page" in any mix of upper
    and lower case, one or more white-space code units, a decimal number
    and a closing parenthesis form one citation part whose pages field is
    the number. *)
Theorem extractCitations_any_case (w ws : Str) (d : N) (ds : Str) :
  pageWord w ->
  ws <> [] -> blank ws ->
  digit d -> Forall digit ds ->
  extractCitations (cu "(" :: w ++ ws ++ d :: ds ++ [cu ")"])
  = Some [mkPart type_citation (cu "(" :: w ++ ws ++ d :: ds ++ [cu ")"])
            (Some (d :: ds))].
Proof.
  intros Hw Hne Hws Hd Hds.
  apply extractCitations_whole; [discriminate|].
  apply exec_whole; [discriminate|].
  unfold pageWord in Hw.
  destruct w as [|c1 [|c2 [|c3 [|c4 [|c5 w]]]]]; try discriminate Hw.
  change (lit "PAGE") with [80; 65; 71; 69]%N in Hw.
  injection Hw as H1 H2 H3 H4.
  destruct ws as [|sp ws]; [contradiction|].
  inversion Hws as [|? ? Hsp Hws']; subst.
  unfold citationRegex. cbn [app].
  rewrite rmatch_chr_same.
  rewrite (rmatch_chr_canon (cu "P") c1) by (rewrite H1; reflexivity).
  rewrite (rmatch_chr_canon (cu "a") c2) by (rewrite H2; reflexivity).
  rewrite (rmatch_chr_canon (cu "g") c3) by (rewrite H3; reflexivity).
  rewrite (rmatch_chr_canon (cu "e") c4) by (rewrite H4; reflexivity).
  apply plus_space_greedy;
    [exact Hsp | exact Hws' | apply digit_not_space, Hd |].
  apply rmatch_group_pages; assumption.
Qed.

Lemma extractCitations_any_case_witness :
  extractCitations (lit "(PAGE   12)")
  = Some [mkPart type_citation (lit "(PAGE   12)") (Some (lit "12"))].
Proof.
  apply (extractCitations_any_case (lit "PAGE") (lit "   ") (cu "1") (lit "2")).
  - reflexivity.
  - discriminate.
  - repeat constructor.
  - reflexivity.
  - repeat constructor.
Defined.

Lemma morePages_fails_at_paren_tail {A : Type} (post : Str) (cap : option Str)
    (k : Str -> option Str -> option A) :
  rmatch morePages (cu ")" :: post) cap k = None.
Proof. reflexivity. Qed.

Lemma pageNumbers_greedy_tail {A : Type} (k : Str -> option Str -> option A)
    (x : A) (d : N) (ds post : Str) (cap : option Str) :
  digit d -> Forall digit ds ->
  k (cu ")" :: post) cap = Some x ->
  rmatch pageNumbers (d :: ds ++ cu ")" :: post) cap k = Some x.
Proof.
  intros Hd Hds Hk. unfold pageNumbers, Plus.
  cbn [rmatch]. unfold digit in Hd. rewrite Hd.
  apply repeat_digit_greedy.
  - exact Hds.
  - reflexivity.
  - cbn [length repeatMatcher]. rewrite morePages_fails_at_paren_tail.
    exact Hk.
  - rewrite length_app. lia.
Qed.

Lemma rmatch_citation_tail (w ws : Str) (d : N) (ds post : Str) :
  pageWord w -> ws <> [] -> blank ws -> digit d -> Forall digit ds ->
  rmatch citationRegex (citationText w ws d ds ++ post) None
    (fun rest cap => Some (rest, cap))
  = Some (post, Some (d :: ds)).
Proof.
  intros Hw Hne Hws Hd Hds. unfold pageWord in Hw.
  destruct w as [|c1 [|c2 [|c3 [|c4 [|c5 w]]]]]; try discriminate Hw.
  change (lit "PAGE") with [80; 65; 71; 69]%N in Hw.
  injection Hw as H1 H2 H3 H4.
  destruct ws as [|sp ws]; [contradiction|].
  inversion Hws as [|? ? Hsp Hws']; subst.
  unfold citationRegex, citationText. cbn [app].
  rewrite rmatch_chr_same.
  rewrite (rmatch_chr_canon (cu "P") c1) by (rewrite H1; reflexivity).
  rewrite (rmatch_chr_canon (cu "a") c2) by (rewrite H2; reflexivity).
  rewrite (rmatch_chr_canon (cu "g") c3) by (rewrite H3; reflexivity).
  rewrite (rmatch_chr_canon (cu "e") c4) by (rewrite H4; reflexivity).
  rewrite <- !app_assoc. cbn [app].
  apply plus_space_greedy;
    [exact Hsp | exact Hws' | apply digit_not_space, Hd |].
  rewrite rmatch_group_seq. rewrite <- app_assoc. cbn [app].
  apply pageNumbers_greedy_tail; [exact Hd | exact Hds |].
  cbn [rmatch]. rewrite N.eqb_refl. do 3 f_equal.
  apply (take_length_sub (d :: ds) (cu ")" :: post)).
Qed.

Lemma exec_from_skip (pre s : Str) :
  forall i : nat,
    Forall notParen pre -> s <> [] ->
    exec_from citationRegex (pre ++ s) i
    = exec_from citationRegex s (i + length pre).
Proof.
  induction pre as [|c pre IH]; intros i Hall Hne.
  - cbn [app length]. rewrite Nat.add_0_r. reflexivity.
  - inversion Hall as [|? ? Hc Hpre]; subst.
    cbn [app exec_from]. rewrite rmatch_citation_head by exact Hc.
    rewrite IH by assumption. f_equal. cbn [length]. lia.
Qed.

(** X4: in a text that has no parenthesis apart from one citation (an
    opening parenthesis, "page" in any mix of upper and lower case, white
    space, a decimal number, a closing parenthesis), extractCitations
    returns the text before the citation (when not empty), the citation
    with the number in its pages field, and the text after it (when not
    empty). *)
Theorem extractCitations_one_citation (pre post w ws : Str) (d : N) (ds : Str) :
  Forall notParen pre -> Forall notParen post ->
  pageWord w -> ws <> [] -> blank ws -> digit d -> Forall digit ds ->
  extractCitations (pre ++ citationText w ws d ds ++ post)
  = Some ((if 0 <? length pre then [mkPart type_text pre None] else [])
          ++ [mkPart type_citation (citationText w ws d ds) (Some (d :: ds))]
          ++ (if 0 <? length post then [mkPart type_text post None] else [])).
Proof.
  intros Hpre Hpost Hw Hne Hws Hd Hds.
  pose proof (rmatch_citation_tail w ws d ds post Hw Hne Hws Hd Hds) as Hm.
  set (cit := citationText w ws d ds) in *.
  assert (Hcit : exists c t, cit ++ post = c :: t)
    by (eexists _, _; reflexivity).
  destruct Hcit as (c & t & Hct).
  assert (Hlen : 0 < length cit) by (unfold cit, citationText; cbn; lia).
  assert (Hexec1 : exec citationRegex (pre ++ cit ++ post) 0
                   = (Some (mkMatch (length pre) cit (Some (d :: ds))),
                      length pre + length cit)).
  { unfold exec. change (length (pre ++ cit ++ post) <? 0) with false.
    cbv iota. rewrite drop_0.
    rewrite exec_from_skip; [|exact Hpre | rewrite Hct; discriminate].
    cbn [Nat.add]. remember (cit ++ post) as s eqn:Hs. rewrite Hct.
    cbn [exec_from]. rewrite <- Hct, Hm. subst s.
    rewrite take_length_sub. reflexivity. }
  assert (Hexec2 : exec citationRegex (pre ++ cit ++ post)
                     (length pre + length cit) = (None, 0)).
  { unfold exec.
    replace (length (pre ++ cit ++ post) <? length pre + length cit) with false
      by (symmetry; apply Nat.ltb_ge; rewrite !length_app; lia).
    replace (drop (length pre + length cit) (pre ++ cit ++ post)) with post.
    - rewrite exec_from_no_paren by exact Hpost. reflexivity.
    - rewrite app_assoc, <- length_app, drop_app_length. reflexivity. }
  unfold extractCitations.
  rewrite extractLoop_S, Hexec1. cbn [index m0 m1].
  assert (Hfuel : exists n, length (pre ++ cit ++ post) = S n).
  { rewrite !length_app. exists (length pre + length cit + length post - 1).
    lia. }
  destruct Hfuel as (n & Hn). rewrite Hn.
  rewrite extractLoop_S, Hexec2. rewrite <- Hn.
  assert (Hslice : slice (pre ++ cit ++ post) 0 (length pre) = pre).
  { unfold slice. rewrite drop_0, Nat.sub_0_r. apply take_app_length. }
  rewrite Hslice. cbn [app].
  assert (Hrest : slice_from (pre ++ cit ++ post) (length pre + length cit)
                  = post).
  { unfold slice_from. rewrite app_assoc, <- length_app, drop_app_length.
    reflexivity. }
  rewrite Hrest.
  replace (length pre + length cit <? length (pre ++ cit ++ post))
    with (0 <? length post)
    by (rewrite !length_app; destruct (length post); cbn;
        [symmetry; apply Nat.ltb_ge; lia | symmetry; apply Nat.ltb_lt; lia]).
  f_equal.
  destruct (0 <? length pre), (0 <? length post); reflexivity.
Qed.

Lemma extractCitations_one_citation_witness :
  extractCitations (lit "Take 15 mg daily (page 9). See label.")
  = Some [mkPart type_text (lit "Take 15 mg daily ") None;
          mkPart type_citation (lit "(page 9)") (Some (lit "9"));
          mkPart type_text (lit ". See label.") None].
Proof.
  apply (extractCitations_one_citation (lit "Take 15 mg daily ")
           (lit ". See label.") (lit "page") (lit " ") (cu "9") []).
  - apply noParen_Forall. reflexivity.
  - apply noParen_Forall. reflexivity.
  - reflexivity.
  - discriminate.
  - repeat constructor.
  - reflexivity.
  - constructor.
Defined.

End PartsFacts.

(** ** ChatPanel: keys, requests, runs *)

Module PanelFacts.

Import ChatPanel PanelRuns.

Lemma panel_eta (w : Panel) : mkPanel (state w) (inflight w) (calls w) = w.
Proof. destruct w; reflexivity. Qed.

Lemma runSend_guarded (p : Props) (now : Str) (w : Panel) :
  sendGuard (state w) = true -> runSend p now w = w.
Proof.
  intros Hg. unfold runSend, handleSend_begin. rewrite Hg. apply panel_eta.
Qed.

(** X5: in the textarea, Enter without Shift does exactly what a click on
    the Send button does, in every state of the panel; any other key, and
    Enter with Shift, leaves the panel as it is. *)
Theorem enter_is_send (p : Props) (enter shift : bool) (now : Str) (w : Panel) :
  step p (PressKey enter shift now) w
  = if enter && negb shift then step p (ClickSend now) w else w.
Proof.
  cbn [step render textareaDisabled sendDisabled]. unfold handleKeyPress.
  destruct (negb (truthy_opt (documentId p)) || isLoading (state w)) eqn:Hd.
  - rewrite <- orb_assoc, Hd, orb_true_r. destruct (enter && negb shift); reflexivity.
  - destruct (enter && negb shift); [|reflexivity].
    rewrite <- orb_assoc, Hd, orb_false_r.
    destruct (negb (truthy (trim (inputValue (state w))))) eqn:Hb;
      [|reflexivity].
    apply runSend_guarded. unfold sendGuard. rewrite Hb. reflexivity.
Qed.

Lemma step_loadingIffAwaited (p : Props) (e : Event) (w : Panel) :
  loadingIffAwaited w -> loadingIffAwaited (step p e w).
Proof.
  unfold loadingIffAwaited. intros Hinv.
  assert (Hsend : forall now,
             isLoading (state (runSend p now w)) = true
             <-> inflight (runSend p now w) <> None).
  { intros now. unfold runSend, handleSend_begin.
    destruct (sendGuard (state w)); cbn [state inflight isLoading];
      [exact Hinv|]. split; [discriminate | reflexivity]. }
  destruct e as [now | enter shift now | v | i | | outcome now]; cbn [step].
  - destruct (sendDisabled _); [exact Hinv | apply Hsend].
  - destruct (textareaDisabled _); [exact Hinv|]. unfold handleKeyPress.
    destruct (enter && negb shift); [apply Hsend | exact Hinv].
  - destruct (textareaDisabled _); exact Hinv.
  - destruct (examplesVisible _); [|exact Hinv].
    destruct (exampleQuestions !! i); exact Hinv.
  - destruct (clearVisible _); exact Hinv.
  - destruct (inflight w) eqn:E; [|rewrite E; exact Hinv].
    cbn [state inflight isLoading handleSend_settle].
    split; [discriminate | intros H; exfalso; apply H; reflexivity].
Qed.

Lemma run_loadingIffAwaited (es : list (Props * Event)) :
  forall w : Panel, loadingIffAwaited w -> loadingIffAwaited (run es w).
Proof.
  induction es as [|[p e] es IH]; intros w Hinv; [exact Hinv|].
  unfold run. cbn [foldl]. apply IH, step_loadingIffAwaited, Hinv.
Qed.

Lemma step_while_loading_calls (p : Props) (e : Event) (w : Panel) :
  isLoading (state w) = true -> calls (step p e w) = calls w.
Proof.
  intros Hl.
  destruct e as [now | enter shift now | v | i | | outcome now];
    cbn [step render sendDisabled textareaDisabled].
  - rewrite Hl, orb_true_r. reflexivity.
  - rewrite Hl, orb_true_r. reflexivity.
  - rewrite Hl, orb_true_r. reflexivity.
  - destruct (examplesVisible _); [|reflexivity].
    destruct (exampleQuestions !! i); reflexivity.
  - destruct (clearVisible _); reflexivity.
  - destruct (inflight w); reflexivity.
Qed.

(** X6: one request at a time: in every state the panel reaches from its
    mounting, whatever the events, an event delivered while a call is
    awaited never makes the panel call sendMessage again. *)
Theorem one_request_at_a_time (es : list (Props * Event)) (p : Props)
    (e : Event) :
  inflight (run es mount) <> None ->
  calls (step p e (run es mount)) = calls (run es mount).
Proof.
  intros Hawait. apply step_while_loading_calls.
  apply (run_loadingIffAwaited es mount); [|exact Hawait].
  split; [discriminate | intros H; exfalso; apply H; reflexivity].
Qed.

Lemma one_request_at_a_time_witness :
  inflight (run [(Samples.props, ChangeInput (lit "dose?"));
                 (Samples.props, ClickSend (lit "t1"))] mount) <> None
  /\ calls (run [(Samples.props, ChangeInput (lit "dose?"));
                 (Samples.props, ClickSend (lit "t1"));
                 (Samples.props, PressKey true false (lit "t2"))] mount)
     = [sendMessage (lit "dose?") (lit "s1") (Some (lit "d1"))].
Proof.
  assert (H : inflight (run [(Samples.props, ChangeInput (lit "dose?"));
                             (Samples.props, ClickSend (lit "t1"))] mount)
              <> None) by discriminate.
  split; [exact H|].
  exact (one_request_at_a_time
           [(Samples.props, ChangeInput (lit "dose?"));
            (Samples.props, ClickSend (lit "t1"))]
           Samples.props (PressKey true false (lit "t2")) H).
Defined.

Lemma alternates_snoc (ms : list Message) (m : Message) :
  alternates user ms = true ->
  role m = (if Nat.odd (length ms) then assistant else user) ->
  alternates user (ms ++ [m]) = true.
Proof.
  assert (Hgen : forall (ms : list Message) (first : Role),
             alternates first ms = true ->
             role m = (if Nat.odd (length ms)
                       then match first with user => assistant
                                           | assistant => user end
                       else first) ->
             alternates first (ms ++ [m]) = true).
  { clear ms. induction ms as [|m' ms IH]; intros first Halt Hrole.
    - cbn in *. rewrite Hrole. destruct first; reflexivity.
    - cbn [app alternates] in *.
      destruct first, (role m') eqn:Hr; try discriminate.
      + apply IH; [exact Halt|].
        rewrite Hrole. cbn [length]. rewrite Nat.odd_succ, <- Nat.negb_odd.
        destruct (Nat.odd (length ms)); reflexivity.
      + apply IH; [exact Halt|].
        rewrite Hrole. cbn [length]. rewrite Nat.odd_succ, <- Nat.negb_odd.
        destruct (Nat.odd (length ms)); reflexivity. }
  apply Hgen.
Qed.

Lemma length_snoc_odd {A : Type} (l : list A) (x : A) :
  Nat.odd (length (l ++ [x])) = negb (Nat.odd (length l)).
Proof.
  rewrite length_app. cbn [length]. rewrite Nat.add_1_r, Nat.odd_succ.
  symmetry. apply Nat.negb_odd.
Qed.

Lemma runSend_consistent (p : Props) (now : Str) (w : Panel) :
  consistent w -> consistent (runSend p now w).
Proof.
  intros (Halt & Hodd & Hiff). unfold runSend, handleSend_begin.
  destruct (sendGuard (state w)) eqn:Hg.
  - split; [exact Halt|]. split; [exact Hodd | exact Hiff].
  - unfold sendGuard in Hg. apply orb_false_iff in Hg as [_ Hl].
    unfold consistent. cbn [state messages isLoading inflight].
    split; [|split].
    + apply alternates_snoc; [exact Halt|]. rewrite Hodd, Hl. reflexivity.
    + rewrite length_snoc_odd, Hodd, Hl. reflexivity.
    + split; [discriminate | reflexivity].
Qed.

Lemma step_consistent (p : Props) (e : Event) (w : Panel) :
  e <> ClickClear -> consistent w -> consistent (step p e w).
Proof.
  intros Hne Hinv.
  destruct e as [now | enter shift now | v | i | | outcome now]; cbn [step].
  - destruct (sendDisabled _); [exact Hinv | apply runSend_consistent, Hinv].
  - destruct (textareaDisabled _); [exact Hinv|]. unfold handleKeyPress.
    destruct (enter && negb shift);
      [apply runSend_consistent, Hinv | exact Hinv].
  - destruct (textareaDisabled _); exact Hinv.
  - destruct (examplesVisible _); [|exact Hinv].
    destruct (exampleQuestions !! i); exact Hinv.
  - contradiction.
  - destruct Hinv as (Halt & Hodd & Hiff).
    destruct (inflight w) eqn:E; [|split; [exact Halt|]; split;
                                    [exact Hodd | rewrite E; exact Hiff]].
    assert (Hl : isLoading (state w) = true) by (apply Hiff; discriminate).
    unfold consistent.
    cbn [state messages isLoading inflight handleSend_settle].
    split; [|split].
    + apply alternates_snoc; [exact Halt|].
      rewrite Hodd, Hl. apply ChatPanelFacts.settled_role.
    + rewrite length_snoc_odd, Hodd, Hl. reflexivity.
    + split; [discriminate | intros H; exfalso; apply H; reflexivity].
Qed.

(** X7: as long as Clear Chat is not clicked, whatever else happens to a
    mounted panel and in whatever order, its transcript alternates
    between user and assistant entries beginning with a user entry, holds
    an odd number of entries exactly while the panel is loading, and the
    panel is loading exactly while a call is awaited. *)
Theorem transcript_consistent (es : list (Props * Event)) :
  noClear es -> consistent (run es mount).
Proof.
  assert (Hgen : forall w, noClear es -> consistent w -> consistent (run es w)).
  { induction es as [|[p e] es IH]; intros w Hall Hinv; [exact Hinv|].
    inversion Hall as [|? ? He Hes]; subst.
    unfold run. cbn [foldl]. apply IH; [exact Hes|].
    apply step_consistent; [exact He | exact Hinv]. }
  intros Hall. apply Hgen; [exact Hall|].
  split; [reflexivity|]. split; [reflexivity|].
  split; [discriminate | intros H; exfalso; apply H; reflexivity].
Qed.

Lemma transcript_consistent_witness :
  consistent (run [(Samples.props, ClickExample 1);
                   (Samples.props, ClickSend (lit "t1"));
                   (Samples.props, ChangeInput (lit "next"));
                   (Samples.props, Settle ChatRejected (lit "t2"));
                   (Samples.props, ChangeInput (lit "and the dose?"));
                   (Samples.props, PressKey true false (lit "t3"))] mount).
Proof.
  apply transcript_consistent. repeat constructor; discriminate.
Defined.

Lemma sendDisabled_guard (p : Props) (st : State) :
  sendDisabled (render p st) = false -> sendGuard st = false.
Proof.
  cbn [render sendDisabled]. unfold sendGuard. intros Hd.
  destruct (truthy (trim (inputValue st))); [|discriminate].
  destruct (isLoading st); [|reflexivity].
  rewrite orb_true_r in Hd. discriminate.
Qed.

(** A click on the enabled Send button. *)
Lemma step_click_enabled (p : Props) (now : Str) (w : Panel) :
  sendDisabled (render p (state w)) = false ->
  step p (ClickSend now) w
  = mkPanel
      (mkState (messages (state w) ++ [userMessage (inputValue (state w)) now])
         [] true)
      (Some (sendMessage (inputValue (state w)) (sessionId p) (documentId p)))
      (calls w ++ [sendMessage (inputValue (state w)) (sessionId p)
                     (documentId p)]).
Proof.
  intros Hd. cbn [step]. rewrite Hd.
  unfold runSend, handleSend_begin.
  rewrite (sendDisabled_guard p (state w) Hd). reflexivity.
Qed.

(** X8: when Clear Chat is clicked while a call is awaited, the answer (or
    the error entry) is appended to the emptied transcript: after the
    call settles the transcript is that one assistant entry, without the
    question it answers. *)
Theorem clear_while_awaiting (p p' p'' : Props) (now1 now2 : Str)
    (outcome : ChatOutcome) (w : Panel) :
  sendDisabled (render p (state w)) = false ->
  messages (state (run [(p, ClickSend now1); (p', ClickClear);
                        (p'', Settle outcome now2)] w))
  = [settled outcome now2]
  /\ role (settled outcome now2) = assistant.
Proof.
  intros Hd. split; [|apply ChatPanelFacts.settled_role].
  unfold run. cbn [foldl fst snd].
  rewrite (step_click_enabled p now1 w Hd).
  cbn [step render clearVisible state messages].
  replace (0 <? length (messages (state w) ++ [userMessage (inputValue (state w)) now1]))
    with true
    by (symmetry; apply Nat.ltb_lt; rewrite length_app; cbn; lia).
  reflexivity.
Qed.

Lemma clear_while_awaiting_witness :
  messages (state (run [(Samples.props, ClickSend (lit "t1"));
                        (Samples.props, ClickClear);
                        (Samples.props, Settle ChatRejected (lit "t2"))]
                     (mkPanel Samples.asking None [])))
  = [errorMessage (lit "t2")].
Proof.
  apply (clear_while_awaiting Samples.props Samples.props Samples.props
           (lit "t1") (lit "t2") ChatRejected (mkPanel Samples.asking None [])).
  reflexivity.
Defined.

Lemma sendGuard_asked (st : State) :
  sendGuard st = false -> trim (inputValue st) <> [].
Proof.
  unfold sendGuard. intros Hg. apply orb_false_iff in Hg as [Hq _].
  destruct (trim (inputValue st)); [discriminate Hq | discriminate].
Qed.

Lemma runSend_proper (sid : Str) (p : Props) (now : Str) (w : Panel) :
  sessionId p = sid ->
  Forall (properRequest sid) (calls w) ->
  Forall (properRequest sid) (calls (runSend p now w)).
Proof.
  intros Hsid Hall. unfold runSend, handleSend_begin.
  destruct (sendGuard (state w)) eqn:Hg; cbn [calls]; [exact Hall|].
  apply Forall_app. split; [exact Hall|].
  constructor; [|constructor]. split; [exact Hsid|].
  apply sendGuard_asked, Hg.
Qed.

Lemma step_proper (sid : Str) (p : Props) (e : Event) (w : Panel) :
  sessionId p = sid ->
  Forall (properRequest sid) (calls w) ->
  Forall (properRequest sid) (calls (step p e w)).
Proof.
  intros Hsid Hall.
  destruct e as [now | enter shift now | v | i | | outcome now]; cbn [step].
  - destruct (sendDisabled _); [exact Hall | apply runSend_proper; assumption].
  - destruct (textareaDisabled _); [exact Hall|]. unfold handleKeyPress.
    destruct (enter && negb shift);
      [apply runSend_proper; assumption | exact Hall].
  - destruct (textareaDisabled _); exact Hall.
  - destruct (examplesVisible _); [|exact Hall].
    destruct (exampleQuestions !! i); exact Hall.
  - destruct (clearVisible _); exact Hall.
  - destruct (inflight w); exact Hall.
Qed.

(** X9: when App passes the same session id with every rendering, every
    request a mounted panel hands to sendMessage, whatever the events,
    carries that session id and a question that is not blank. *)
Theorem requests_proper (sid : Str) (es : list (Props * Event)) :
  Forall (fun pe => sessionId (fst pe) = sid) es ->
  Forall (properRequest sid) (calls (run es mount)).
Proof.
  assert (Hgen : forall w,
             Forall (fun pe => sessionId (fst pe) = sid) es ->
             Forall (properRequest sid) (calls w) ->
             Forall (properRequest sid) (calls (run es w))).
  { induction es as [|[p e] es IH]; intros w Hsid Hall; [exact Hall|].
    apply Forall_cons in Hsid as [Hp Hes].
    unfold run. cbn [foldl]. apply IH; [exact Hes|].
    apply step_proper; [exact Hp | exact Hall]. }
  intros Hsid. apply Hgen; [exact Hsid | constructor].
Qed.

Lemma requests_proper_witness :
  Forall (properRequest (lit "s1"))
    (calls (run [(Samples.props, ChangeInput (lit "  dose? "));
                 (Samples.props, ClickSend (lit "t1"));
                 (Samples.props, Settle ChatRejected (lit "t2"));
                 (Samples.props, ChangeInput (lit "   "));
                 (Samples.props, PressKey true false (lit "t3"))] mount)).
Proof.
  apply (requests_proper (lit "s1")). repeat constructor.
Defined.

Lemma exampleQuestions_asked (i : nat) (q : Str) :
  exampleQuestions !! i = Some q -> truthy (trim q) = true.
Proof.
  do 5 (destruct i as [|i];
        [intros H; injection H as <-; vm_compute; reflexivity|]).
  discriminate.
Qed.

(** X10: every example question can be sent as it is: with a document
    loaded, an empty transcript and no call awaited, a click on an example
    followed by a click on Send calls sendMessage with that question and
    makes it the first entry of the transcript. *)
Theorem example_question_sent (p : Props) (i : nat) (q now : Str) (w : Panel) :
  exampleQuestions !! i = Some q ->
  truthy_opt (documentId p) = true ->
  messages (state w) = [] ->
  isLoading (state w) = false ->
  calls (run [(p, ClickExample i); (p, ClickSend now)] w)
  = calls w ++ [sendMessage q (sessionId p) (documentId p)]
  /\ messages (state (run [(p, ClickExample i); (p, ClickSend now)] w))
     = [userMessage q now].
Proof.
  intros Hq Hdoc Hm Hl.
  pose proof (exampleQuestions_asked i q Hq) as Hasked.
  unfold run. cbn [foldl fst snd].
  assert (H1 : step p (ClickExample i) w
               = mkPanel (setInputValue q (state w)) (inflight w) (calls w)).
  { cbn [step render examplesVisible]. rewrite Hm, Hq. reflexivity. }
  rewrite H1. rewrite step_click_enabled.
  - cbn [state calls messages inputValue setInputValue]. rewrite Hm.
    split; reflexivity.
  - cbn [render sendDisabled state setInputValue inputValue isLoading].
    rewrite Hasked, Hdoc, Hl. reflexivity.
Qed.

Lemma example_question_sent_witness :
  calls (run [(Samples.props, ClickExample 2);
              (Samples.props, ClickSend (lit "t1"))] mount)
  = [sendMessage (lit "Is RINVOQ contraindicated in hepatic impairment?")
       (lit "s1") (Some (lit "d1"))].
Proof.
  apply (example_question_sent Samples.props 2
           (lit "Is RINVOQ contraindicated in hepatic impairment?")
           (lit "t1") mount); reflexivity.
Defined.

End PanelFacts.

(** ** App: what stays true over the upload flow *)

Module AppUiFacts.

Import App AppUi.

Lemma step_coherent (sid : Str) (e : Event) (w : State * UploadState) :
  coherent sid w -> coherent sid (step e w).
Proof.
  intros (Hs & Hd & Hf & He).
  destruct e as [fs progress outcome|]; cbn [step].
  - destruct fs as [|f fs]; cbn [onDrop]; [repeat split; tauto|].
    destruct outcome as [result|detail]; unfold coherent;
      cbn [fst snd handleUploadSuccess handleUploadError setIsProcessing
           sessionId documentId documentInfo App.error uploadedFile fmap
           option_fmap option_map].
    + split; [exact Hs|]. split; [reflexivity|].
      split; [split; discriminate | left; reflexivity].
    + split; [exact Hs|]. split; [reflexivity|].
      split; [split; reflexivity | right; reflexivity].
  - unfold coherent, onDropTimer.
    cbn [fst snd setIsProcessing sessionId documentId documentInfo App.error
         uploadedFile].
    repeat split; tauto.
Qed.

(** X12: whatever drops and timers App goes through, its session id never
    changes, the document id is that of the document in the information
    card, the upload panel marks a file as processed exactly when a
    document is loaded, an error and a document are never shown together,
    and a chat panel, when rendered, is rendered for the document of the
    card under App's session id. *)
Theorem app_coherent (sid : Str) (es : list Event) :
  let w := run es (initialState sid, initialUploadState) in
  coherent sid w
  /\ forall props,
       renderChatArea (fst w) = ChatPanelFor props ->
       ChatPanel.sessionId props = sid
       /\ exists info,
            documentInfo (fst w) = Some info
            /\ ChatPanel.documentId props = Some (up_document_id info).
Proof.
  assert (Hgen : forall w, coherent sid w -> coherent sid (run es w)).
  { induction es as [|e es IH]; intros w Hinv; [exact Hinv|].
    unfold run. cbn [foldl]. apply IH, step_coherent, Hinv. }
  cbn zeta.
  assert (Hinv : coherent sid (run es (initialState sid, initialUploadState))).
  { apply Hgen. unfold coherent. cbn. repeat split; auto. }
  split; [exact Hinv|].
  destruct Hinv as (Hs & Hd & _ & _).
  intros props Hr. unfold renderChatArea in Hr.
  destruct (truthy_opt (documentId _)) eqn:Ht; [|discriminate].
  injection Hr as <-. cbn [ChatPanel.sessionId ChatPanel.documentId].
  split; [exact Hs|].
  rewrite Hd in Ht |- *.
  destruct (documentInfo _) as [info|]; [|discriminate Ht].
  exists info. split; reflexivity.
Qed.

Lemma app_coherent_witness :
  renderChatArea
    (fst (run [Drop [mkFile (lit "a.pdf")] [50]
                 (UploadResolved (mkUploadResult (lit "d1") (lit "a.pdf") 3 7));
               Timer]
            (initialState (lit "s1"), initialUploadState)))
  = ChatPanelFor (ChatPanel.mkProps (Some (lit "d1")) (lit "s1"))
  /\ ChatPanel.sessionId (ChatPanel.mkProps (Some (lit "d1")) (lit "s1"))
     = lit "s1".
Proof.
  split; [reflexivity|].
  apply (proj2 (app_coherent (lit "s1")
                  [Drop [mkFile (lit "a.pdf")] [50]
                     (UploadResolved
                        (mkUploadResult (lit "d1") (lit "a.pdf") 3 7));
                   Timer])
           (ChatPanel.mkProps (Some (lit "d1")) (lit "s1"))).
  reflexivity.
Defined.

(** X13: for a rejection whose detail is absent or a string (the values
    [UploadRejected] carries), the error banner after a drop of a file
    tells how the upload went: none after a successful upload; after a
    failed one the detail sent by the server, or "Failed to upload PDF"
    when the server sent none or an empty one.  A detail of another JSON
    type is not covered. *)
Theorem error_banner_after_drop (f : File) (fs : list File)
    (progress : list nat) (outcome : UploadOutcome) (w : State * UploadState) :
  errorBanner (fst (onDrop (f :: fs) progress outcome w))
  = match outcome with
    | UploadResolved _ => None
    | UploadRejected (Some (c :: detail)) => Some (c :: detail)
    | UploadRejected _ => Some (lit "Failed to upload PDF")
    end.
Proof.
  destruct outcome as [result | [[|c detail]|]]; reflexivity.
Qed.

Lemma uiRun_locked (es : list Event) (w : State * UploadState) :
  dropzoneDisabled (fst w) = true ->
  Forall isDrop es ->
  uiRun es w = w.
Proof.
  intros Hd Hall. induction Hall as [|e es He _ IH]; [reflexivity|].
  unfold uiRun. cbn [foldl].
  destruct e as [fs progress outcome|]; [|contradiction].
  cbn [uiStep]. rewrite Hd. exact IH.
Qed.

(** X14: after a file has been dropped the dropzone is disabled, whether
    the upload succeeds or fails, and every further drop is ignored until
    the timer of onDrop has fired; the timer enables the dropzone again. *)
Theorem dropzone_locked_until_timer (f : File) (fs : list File)
    (progress : list nat) (outcome : UploadOutcome) (es : list Event)
    (w : State * UploadState) :
  dropzoneDisabled (fst w) = false ->
  Forall isDrop es ->
  uiRun (Drop (f :: fs) progress outcome :: es) w
  = onDrop (f :: fs) progress outcome w
  /\ dropzoneDisabled
       (fst (uiRun (Drop (f :: fs) progress outcome :: es ++ [Timer]) w))
     = false.
Proof.
  intros Hd Hall.
  assert (Hlock : dropzoneDisabled (fst (onDrop (f :: fs) progress outcome w))
                  = true)
    by (destruct outcome; reflexivity).
  assert (H1 : uiRun (Drop (f :: fs) progress outcome :: es) w
               = onDrop (f :: fs) progress outcome w).
  { unfold uiRun. cbn [foldl uiStep]. rewrite Hd.
    apply (uiRun_locked es _ Hlock Hall). }
  split; [exact H1|].
  rewrite app_comm_cons. unfold uiRun in *. rewrite foldl_app, H1.
  reflexivity.
Qed.

Lemma dropzone_locked_until_timer_witness :
  uiRun [Drop [mkFile (lit "a.pdf")] [] (UploadRejected None);
         Drop [mkFile (lit "b.pdf")] []
           (UploadResolved (mkUploadResult (lit "d2") (lit "b.pdf") 1 1))]
    (initialState (lit "s1"), initialUploadState)
  = onDrop [mkFile (lit "a.pdf")] [] (UploadRejected None)
      (initialState (lit "s1"), initialUploadState).
Proof.
  apply (dropzone_locked_until_timer (mkFile (lit "a.pdf")) [] []
           (UploadRejected None)
           [Drop [mkFile (lit "b.pdf")] []
              (UploadResolved (mkUploadResult (lit "d2") (lit "b.pdf") 1 1))]
           (initialState (lit "s1"), initialUploadState)).
  - reflexivity.
  - repeat constructor.
Defined.

(** X15: the health indicator and its label agree: after checkApiHealth,
    however the health request went, the dot is green exactly when the
    label reads "LM Studio Connected", and red exactly when the request
    failed; before the first answer the dot is gray and the label reads
    "LM Studio Disconnected". *)
Theorem health_indicator_agrees (outcome : HealthOutcome) :
  (indicator (checkApiHealth outcome) = green
   <-> label (checkApiHealth outcome) = lit "LM Studio Connected")
  /\ (indicator (checkApiHealth outcome) = red <-> outcome = HealthRejected)
  /\ indicator initialApiStatus = gray
  /\ label initialApiStatus = lit "LM Studio Disconnected".
Proof.
  destruct outcome as [[[|]]|]; cbn; repeat split; try discriminate;
    try reflexivity.
Qed.

End AppUiFacts.

(** ** DocumentList: fetching and deleting *)

Module DocumentListFacts.

Import DocumentList.

(** X16: a confirmed deletion that the server carries out removes from
    the list exactly the documents with the given id: every other document
    stays, in the same order; deleteDocument is called for that id, the
    parent is notified when it passed a callback, and no deletion is
    marked as running afterwards.  When no listed document has the id the
    list is unchanged. *)
Theorem delete_removes_only_that (p : Props) (documentId filename : Str)
    (st : State) :
  let r := handleDelete p documentId filename true DeleteResolved st in
  (forall doc,
      doc ∈ documents (fst r)
      <-> doc ∈ documents st /\ document_id doc <> documentId)
  /\ documents (fst r) `sublist_of` documents st
  /\ deleting (fst r) = None
  /\ CallDeleteDocument documentId ∈ snd r
  /\ (onDocumentDeleted p = true -> NotifyDeleted documentId ∈ snd r)
  /\ (Forall (fun doc => document_id doc <> documentId) (documents st) ->
      documents (fst r) = documents st).
Proof.
  cbn [handleDelete negb fst snd documents deleting].
  split; [|split; [|split; [|split; [|split]]]].
  - intros doc. rewrite list_elem_of_filter. tauto.
  - apply sublist_filter.
  - reflexivity.
  - apply list_elem_of_In. cbn. auto.
  - intros ->. apply list_elem_of_In. cbn. auto.
  - intros Hall. induction Hall as [|doc docs Hdoc _ IH]; [reflexivity|].
    rewrite filter_cons_True by exact Hdoc. rewrite IH. reflexivity.
Qed.

Lemma delete_removes_only_that_witness :
  documents (fst (handleDelete (mkProps None false true) (lit "d2")
                    (lit "b.pdf") true DeleteResolved
                    (mkState [doc "d1" "a.pdf"; doc "d2" "b.pdf";
                              doc "d3" "c.pdf"] false None)))
  = [doc "d1" "a.pdf"; doc "d3" "c.pdf"]
  /\ NotifyDeleted (lit "d2")
     ∈ snd (handleDelete (mkProps None false true) (lit "d2")
              (lit "b.pdf") true DeleteResolved
              (mkState [doc "d1" "a.pdf"; doc "d2" "b.pdf";
                        doc "d3" "c.pdf"] false None)).
Proof.
  split; [vm_compute; reflexivity|].
  apply (delete_removes_only_that (mkProps None false true) (lit "d2")
           (lit "b.pdf")
           (mkState [doc "d1" "a.pdf"; doc "d2" "b.pdf"; doc "d3" "c.pdf"]
              false None)).
  reflexivity.
Defined.

(** X17: when the user declines the confirmation, or the server rejects
    the deletion, the list is left as it is and the parent is not
    notified; declining calls deleteDocument not at all, and a rejection
    raises an alert with the detail sent by the server or else the
    message of the error. *)
Theorem delete_declined_or_failed (p : Props) (documentId filename : Str)
    (confirmed : bool) (outcome : DeleteOutcome) (st : State) :
  notDeleted confirmed outcome ->
  let r := handleDelete p documentId filename confirmed outcome st in
  documents (fst r) = documents st
  /\ (forall id, NotifyDeleted id ∉ snd r)
  /\ (confirmed = false ->
      fst r = st /\ forall id, CallDeleteDocument id ∉ snd r)
  /\ (confirmed = true ->
      forall detail message,
        outcome = DeleteRejected detail message ->
        Alert (lit "Failed to delete document: "
               ++ match detail with
                  | Some (c :: d) => c :: d
                  | _ => message
                  end) ∈ snd r).
Proof.
  intros Hnot. cbn zeta. unfold handleDelete.
  destruct confirmed; cbn [negb].
  - destruct Hnot as [Hc|Ho]; [discriminate|].
    destruct outcome as [|detail message]; [contradiction|].
    cbn [fst snd documents].
    split; [reflexivity|]. split; [|split; [discriminate|]].
    + intros id Hin. apply list_elem_of_In in Hin. cbn in Hin.
      destruct Hin as [H|[H|[H|[]]]]; discriminate H.
    + intros _ detail' message' Heq. injection Heq as <- <-.
      apply list_elem_of_In. cbn.
      right. right. left. f_equal. f_equal.
      destruct detail as [[|c d]|]; reflexivity.
  - cbn [fst snd]. split; [reflexivity|]. split; [|split; [|discriminate]].
    + intros id Hin. apply list_elem_of_In in Hin. cbn in Hin.
      destruct Hin as [H|[]]; discriminate H.
    + intros _. split; [reflexivity|].
      intros id Hin. apply list_elem_of_In in Hin. cbn in Hin.
      destruct Hin as [H|[]]; discriminate H.
Qed.

Lemma delete_declined_or_failed_witness :
  notDeleted true (DeleteRejected None (lit "Network Error"))
  /\ Alert (lit "Failed to delete document: Network Error")
     ∈ snd (handleDelete (mkProps None false true) (lit "d2") (lit "b.pdf")
              true (DeleteRejected None (lit "Network Error"))
              (mkState [doc "d2" "b.pdf"] false None)).
Proof.
  assert (H : notDeleted true (DeleteRejected None (lit "Network Error")))
    by (right; discriminate).
  split; [exact H|].
  apply (proj2 (proj2 (proj2
           (delete_declined_or_failed (mkProps None false true) (lit "d2")
              (lit "b.pdf") true (DeleteRejected None (lit "Network Error"))
              (mkState [doc "d2" "b.pdf"] false None) H)))
           eq_refl None (lit "Network Error") eq_refl).
Defined.

(** X18: fetchDocuments always ends the loading state, so the spinner is
    never shown after it; a rejected request keeps the documents listed
    before, and a response without a documents field empties the list.
    After a failed first request the component shows "No documents
    uploaded yet", as it does for an empty library. *)
Theorem fetch_ends_loading (p : Props) (outcome : ListOutcome) (st : State) :
  render p (fst (fetchDocuments outcome st)) <> Spinner
  /\ (outcome = ListRejected ->
      documents (fst (fetchDocuments outcome st)) = documents st)
  /\ (outcome = ListResolved None ->
      render p (fst (fetchDocuments outcome st)) = NoDocuments)
  /\ render p (fst (fetchDocuments ListRejected initialState)) = NoDocuments.
Proof.
  split; [|split; [|split]].
  - destruct outcome as [ds|]; unfold render; cbn [fetchDocuments fst loading];
      destruct (length _ =? 0); discriminate.
  - intros ->. reflexivity.
  - intros ->. reflexivity.
  - reflexivity.
Qed.

Lemma fetch_ends_loading_witness :
  documents (fst (fetchDocuments ListRejected
                    (mkState [doc "d1" "a.pdf"] false None)))
  = [doc "d1" "a.pdf"].
Proof.
  apply (proj1 (proj2 (fetch_ends_loading (mkProps None false false)
                         ListRejected
                         (mkState [doc "d1" "a.pdf"] false None)))).
  reflexivity.
Defined.

End DocumentListFacts.

(** ** ChatPanel: the transcript and the requests *)

Module PanelRequestFacts.

Import ChatPanel PanelRuns.

(** X19: a click on the enabled Send button, followed by any typing,
    key presses and clicks other than Clear Chat while the call is
    awaited, followed by the settling of the call, leaves the panel in
    the state that handleSend run in one piece computes, with the same
    single call of sendMessage: while a call is awaited the panel ignores
    every input but Clear Chat. *)
Theorem send_is_atomic (p p' : Props) (now1 now2 : Str) (outcome : ChatOutcome)
    (es : list (Props * Event)) (w : Panel) :
  sendDisabled (render p (state w)) = false ->
  Forall (fun pe => userInput (snd pe)) es ->
  state (run ((p, ClickSend now1) :: es ++ [(p', Settle outcome now2)]) w)
  = fst (handleSend p now1 now2 outcome (state w))
  /\ calls (run ((p, ClickSend now1) :: es ++ [(p', Settle outcome now2)]) w)
     = calls w ++ snd (handleSend p now1 now2 outcome (state w)).
Proof.
  intros Hd Hall.
  exact (ChatPanelFacts.click_then_settle p p' now1 now2 outcome es w Hd Hall).
Qed.

Lemma send_is_atomic_witness :
  state (run [(Samples.props, ClickSend (lit "t1"));
              (Samples.props, ChangeInput (lit "typed while waiting"));
              (Samples.props, PressKey true false (lit "t2"));
              (Samples.props, Settle ChatRejected (lit "t3"))]
           (mkPanel Samples.asking None []))
  = fst (handleSend Samples.props (lit "t1") (lit "t3") ChatRejected
           Samples.asking).
Proof.
  apply (send_is_atomic Samples.props Samples.props (lit "t1") (lit "t3")
           ChatRejected
           [(Samples.props, ChangeInput (lit "typed while waiting"));
            (Samples.props, PressKey true false (lit "t2"))]
           (mkPanel Samples.asking None [])).
  - reflexivity.
  - repeat constructor.
Defined.

Lemma questionsAsked_snoc (ms : list Message) (m : Message) :
  questionsAsked (ms ++ [m])
  = questionsAsked ms ++ match role m with
                         | user => [msg_content m]
                         | assistant => []
                         end.
Proof.
  unfold questionsAsked. rewrite map_app, concat_app. cbn [map concat].
  rewrite app_nil_r. reflexivity.
Qed.

Lemma runSend_inStep (p : Props) (now : Str) (w : Panel) :
  inStep w -> inStep (runSend p now w).
Proof.
  unfold inStep, runSend, handleSend_begin. intros Hinv.
  destruct (sendGuard (state w)); cbn [calls state messages]; [exact Hinv|].
  rewrite map_app, questionsAsked_snoc, Hinv. reflexivity.
Qed.

Lemma step_inStep (p : Props) (e : Event) (w : Panel) :
  e <> ClickClear -> inStep w -> inStep (step p e w).
Proof.
  intros Hne Hinv.
  destruct e as [now | enter shift now | v | i | | outcome now]; cbn [step].
  - destruct (sendDisabled _); [exact Hinv | apply runSend_inStep, Hinv].
  - destruct (textareaDisabled _); [exact Hinv|]. unfold handleKeyPress.
    destruct (enter && negb shift); [apply runSend_inStep, Hinv | exact Hinv].
  - destruct (textareaDisabled _); exact Hinv.
  - destruct (examplesVisible _); [|exact Hinv].
    destruct (exampleQuestions !! i); exact Hinv.
  - contradiction.
  - destruct (inflight w); [|exact Hinv].
    unfold inStep in *. cbn [calls state messages handleSend_settle].
    rewrite questionsAsked_snoc, ChatPanelFacts.settled_role, app_nil_r.
    exact Hinv.
Qed.

(** X20: as long as Clear Chat is not clicked, the questions of the
    requests a mounted panel has handed to sendMessage are, in order and
    one for one, the contents of the user entries of its transcript: what
    is shown as asked is what was sent, untrimmed. *)
Theorem requests_match_transcript (es : list (Props * Event)) :
  noClear es ->
  map question (calls (run es mount))
  = questionsAsked (messages (state (run es mount))).
Proof.
  assert (Hgen : forall w, noClear es -> inStep w -> inStep (run es w)).
  { induction es as [|[p e] es IH]; intros w Hall Hinv; [exact Hinv|].
    apply Forall_cons in Hall as [He Hes].
    unfold run. cbn [foldl]. apply IH; [exact Hes|].
    apply step_inStep; [exact He | exact Hinv]. }
  intros Hall. apply (Hgen mount Hall). reflexivity.
Qed.

Lemma requests_match_transcript_witness :
  map question
    (calls (run [(Samples.props, ChangeInput (lit " dose? "));
                 (Samples.props, ClickSend (lit "t1"));
                 (Samples.props, Settle ChatRejected (lit "t2"))] mount))
  = [lit " dose? "].
Proof.
  rewrite (requests_match_transcript
             [(Samples.props, ChangeInput (lit " dose? "));
              (Samples.props, ClickSend (lit "t1"));
              (Samples.props, Settle ChatRejected (lit "t2"))]).
  - reflexivity.
  - repeat constructor; discriminate.
Defined.

End PanelRequestFacts.

(** ** ChatPanel: sends, Clear Chat and the Send button *)

Module SendFacts.

Import ChatPanel PanelRuns Samples.

(** C8 as stated fails: Clear Chat is clickable while a call is awaited.
    A question is sent, the chat is cleared, the answer arrives, a second
    question is sent and answered: the transcript, cleared in between, is
    an assistant entry, a user entry and an assistant entry, so it does
    not begin with a user entry, and the first send has left one entry,
    not two. *)
Lemma sends_alternate_counterexample :
  map role
    (messages (state (run [(props, ChangeInput (lit "What are the boxed warnings?"));
                           (props, ClickSend (lit "t1"));
                           (props, ClickClear);
                           (props, Settle ChatRejected (lit "t2"));
                           (props, ChangeInput (lit "And the dose?"));
                           (props, ClickSend (lit "t3"));
                           (props, Settle ChatRejected (lit "t4"))] mount)))
  = [assistant; user; assistant]
  /\ alternates user
       (messages (state (run [(props, ChangeInput (lit "What are the boxed warnings?"));
                              (props, ClickSend (lit "t1"));
                              (props, ClickClear);
                              (props, Settle ChatRejected (lit "t2"));
                              (props, ChangeInput (lit "And the dose?"));
                              (props, ClickSend (lit "t3"));
                              (props, Settle ChatRejected (lit "t4"))] mount)))
     = false
  /\ ~ (forall es : list (Props * Event),
          alternates user (messages (state (run es mount))) = true).
Proof.
  split; [reflexivity|]. split; [reflexivity|].
  intros H.
  specialize (H [(props, ChangeInput (lit "What are the boxed warnings?"));
                 (props, ClickSend (lit "t1"));
                 (props, ClickClear);
                 (props, Settle ChatRejected (lit "t2"))]).
  discriminate H.
Qed.

Lemma run_consistent (es : list (Props * Event)) :
  forall w : Panel, noClear es -> consistent w -> consistent (run es w).
Proof.
  induction es as [|[p e] es IH]; intros w Hall Hinv; [exact Hinv|].
  apply Forall_cons in Hall as [He Hes].
  unfold run. cbn [foldl]. apply IH; [exact Hes|].
  apply PanelFacts.step_consistent; [exact He | exact Hinv].
Qed.

Lemma idleAndEmpty_consistent (w : Panel) : idleAndEmpty w -> consistent w.
Proof.
  intros (Hm & Hl & Hi). unfold consistent. rewrite Hm, Hl, Hi.
  split; [reflexivity|]. split; [reflexivity|].
  split; [discriminate | intros H; exfalso; apply H; reflexivity].
Qed.

(** C8 (amended): a send of a non-blank question that runs to completion
    with no click on Clear Chat while its call is awaited appends exactly
    two entries, the user's question and then an assistant entry, whether
    the call is resolved or rejected: this holds for handleSend run in one
    piece and for a click on Send followed by any other input and the
    settling of the call.  Hence after any sequence of such sends from an
    empty transcript with no call awaited there are two entries per send
    and the roles alternate beginning with user; and the roles alternate
    beginning with user after any events whatever that include no click on
    Clear Chat, from a panel that is empty and idle. *)
Theorem sends_alternate_unless_cleared :
  (forall (p : Props) (now1 now2 : Str) (outcome : ChatOutcome) (st : State),
      trim (inputValue st) <> [] ->
      isLoading st = false ->
      exists a,
        role a = assistant
        /\ messages (fst (handleSend p now1 now2 outcome st))
           = messages st ++ [mkMessage user (inputValue st) now1 None; a])
  /\ (forall (p p' : Props) (now1 now2 : Str) (outcome : ChatOutcome)
             (es : list (Props * Event)) (w : Panel),
        sendDisabled (render p (state w)) = false ->
        Forall (fun pe => userInput (snd pe)) es ->
        exists a,
          role a = assistant
          /\ messages
               (state (run ((p, ClickSend now1) :: es
                            ++ [(p', Settle outcome now2)]) w))
             = messages (state w)
               ++ [mkMessage user (inputValue (state w)) now1 None; a])
  /\ (forall (p : Props) (ss : list Send) (st : State),
        messages st = [] ->
        isLoading st = false ->
        Forall asked ss ->
        length (messages (doSends p ss st)) = 2 * length ss
        /\ alternates user (messages (doSends p ss st)) = true)
  /\ (forall (es : list (Props * Event)) (w : Panel),
        idleAndEmpty w ->
        noClear es ->
        alternates user (messages (state (run es w))) = true).
Proof.
  split; [|split; [|split]].
  - intros p now1 now2 outcome st Hq Hl.
    exists (settled outcome now2).
    split; [apply ChatPanelFacts.settled_role|].
    rewrite ChatPanelFacts.handleSend_open
      by (apply ChatPanelFacts.sendGuard_open; assumption).
    reflexivity.
  - intros p p' now1 now2 outcome es w Hd Hall.
    exists (settled outcome now2).
    split; [apply ChatPanelFacts.settled_role|].
    destruct (ChatPanelFacts.click_then_settle p p' now1 now2 outcome es w
                Hd Hall) as [Hst _].
    cbn zeta in Hst. rewrite Hst.
    rewrite ChatPanelFacts.handleSend_open
      by (apply PanelFacts.sendDisabled_guard with (p := p); exact Hd).
    reflexivity.
  - intros p ss st Hempty Hl Hall.
    destruct (ChatPanelFacts.doSends_spec p ss st Hall Hl) as [Hm _].
    rewrite Hm, Hempty. cbn [app].
    split; [apply ChatPanelFacts.length_sendEntries
           | apply ChatPanelFacts.alternates_sendEntries].
  - intros es w Hidle Hall.
    apply (run_consistent es w Hall (idleAndEmpty_consistent w Hidle)).
Qed.

Lemma sends_alternate_unless_cleared_witness :
  map role (messages (doSends props twoSends (clearChat asking)))
  = [user; assistant; user; assistant]
  /\ alternates user (messages (doSends props twoSends (clearChat asking)))
     = true
  /\ alternates user
       (messages (state (run [(props, ChangeInput (lit "And the dose?"));
                              (props, ClickSend (lit "t1"));
                              (props, ClickExample 0);
                              (props, Settle ChatRejected (lit "t2"))] mount)))
     = true.
Proof.
  split; [reflexivity|]. split.
  - apply (proj1 (proj2 (proj2 sends_alternate_unless_cleared))
             props twoSends (clearChat asking)).
    + reflexivity.
    + reflexivity.
    + repeat constructor; vm_compute; discriminate.
  - apply (proj2 (proj2 (proj2 sends_alternate_unless_cleared))
             [(props, ChangeInput (lit "And the dose?"));
              (props, ClickSend (lit "t1"));
              (props, ClickExample 0);
              (props, Settle ChatRejected (lit "t2"))] mount).
    + repeat split.
    + repeat constructor; discriminate.
Defined.

Lemma step_stays_loading (p : Props) (e : Event) (w : Panel) :
  notSettle e ->
  isLoading (state w) = true ->
  isLoading (state (step p e w)) = true.
Proof.
  intros He Hl.
  destruct e as [now | enter shift now | v | i | | outcome now];
    cbn [step render sendDisabled textareaDisabled].
  - rewrite Hl, orb_true_r. exact Hl.
  - rewrite Hl, orb_true_r. exact Hl.
  - rewrite Hl, orb_true_r. exact Hl.
  - destruct (examplesVisible _); [|exact Hl].
    destruct (exampleQuestions !! i); exact Hl.
  - destruct (clearVisible _); exact Hl.
  - contradiction.
Qed.

Lemma run_stays_loading (es : list (Props * Event)) :
  forall w : Panel,
    Forall (fun pe => notSettle (snd pe)) es ->
    isLoading (state w) = true ->
    isLoading (state (run es w)) = true.
Proof.
  induction es as [|[p e] es IH]; intros w Hall Hl; [exact Hl|].
  apply Forall_cons in Hall as [He Hes].
  unfold run. cbn [foldl]. apply IH; [exact Hes|].
  apply step_stays_loading; [exact He | exact Hl].
Qed.

(** X11: from the click that sends a request until that request settles,
    the Send button is disabled in every state the panel goes through,
    whatever happens in between (typing, key presses, clicks on example
    questions and on Clear Chat) and whatever properties App passes; and
    handleSend run in one piece, with nothing in between, leaves the Send
    button disabled both while the call is awaited and after it has
    settled. *)
Theorem send_disabled_while_awaited :
  (forall (p p' : Props) (now : Str) (es : list (Props * Event)) (w : Panel),
      sendDisabled (render p (state w)) = false ->
      Forall (fun pe => notSettle (snd pe)) es ->
      sendDisabled (render p' (state (run ((p, ClickSend now) :: es) w)))
      = true)
  /\ (forall (p : Props) (now1 now2 : Str) (outcome : ChatOutcome) (st : State),
        sendDisabled (render p (fst (handleSend_begin p now1 st))) = true
        /\ sendDisabled (render p (fst (handleSend p now1 now2 outcome st)))
           = true).
Proof.
  split.
  - intros p p' now es w Hd Hall.
    assert (Hl : isLoading (state (run ((p, ClickSend now) :: es) w)) = true).
    { unfold run. cbn [foldl fst snd].
      rewrite (PanelFacts.step_click_enabled p now w Hd).
      apply run_stays_loading; [exact Hall | reflexivity]. }
    cbn [render sendDisabled]. rewrite Hl. apply orb_true_r.
  - intros p now1 now2 outcome st.
    unfold handleSend, handleSend_begin.
    destruct (sendGuard st) eqn:Hg; cbn [fst render sendDisabled].
    + unfold sendGuard in Hg. apply orb_true_iff in Hg as [Hb|Hl].
      * rewrite Hb. split; reflexivity.
      * rewrite Hl, orb_true_r. split; reflexivity.
    + split; reflexivity.
Qed.

Lemma send_disabled_while_awaited_witness :
  sendDisabled
    (render props
       (state (run [(props, ClickSend (lit "t1"));
                    (props, ClickClear);
                    (props, ClickExample 0);
                    (props, PressKey true false (lit "t2"))]
                 (mkPanel asking None []))))
  = true.
Proof.
  apply (proj1 send_disabled_while_awaited props props (lit "t1")
           [(props, ClickClear); (props, ClickExample 0);
            (props, PressKey true false (lit "t2"))]
           (mkPanel asking None [])).
  - reflexivity.
  - repeat constructor.
Defined.

End SendFacts.
